(** * poultry: the search / fetch / write pipeline of [lib/poultry.ts]

    A shallow embedding of [makeSearchURL], [syncSearchPage], [codeSearch],
    [retrieveObjectContents], [graphQueryForObjectText], [syncToOutdir] and
    [errorFromGitHubResponse], followed by the properties of the pipeline.

    Conventions of the embedding:
    - JavaScript strings are [string]; the program only concatenates them,
      tests prefixes and replaces the ASCII characters [/] and [-].
    - JavaScript numbers that the program handles (HTTP status, page number,
      [total_count], epoch seconds) are integers and are modelled in [Z];
      [NaN] is [None] in [option Z] where [parseInt] can produce it.
    - [async] functions run their awaits in sequence, so they are functions in
      a state monad over a [world] that records the calls made to the outside
      (network, console, file system) and holds the mutable [URL] object.
    - [process.exit(1)] and a thrown exception end the computation with the
      outcomes [Exit] and [Throw].
    - [fetch], [mkdir] and [writeFile] are taken to resolve; the trace of the
      world records that the call was issued, with its arguments.
    - A union with [SyncSearchPageError] is a sum whose right injection is the
      error, and [isErrorResult] is the test for that injection: neither a
      [CodeSearchResponse] nor an array has a [kind] property.
    - The command line of [lib/bin.ts] ([collectArgs] with its two loops,
      [addSearchOption], [printHelp], [printError], [errorExit], [red] and
      the script around them) comes after the pipeline; what it prints and
      how it ends are the [cliRun] of [main]. *)

From Stdlib Require Import String Ascii List ZArith Lia Bool DecimalString.
From Stdlib Require Import DecimalPos.
Import ListNotations.
Local Open Scope string_scope.
Local Open Scope list_scope.
Local Set Warnings "-register-all".

(** ** JavaScript values and primitives used by the program *)

Module JS.

(** Values of type [any]: what [response.json()] yields, plus [undefined]. *)
Inductive jsval : Type :=
| VUndefined
| VNull
| VBool (b : bool)
| VNum (n : Z)
| VStr (s : string)
| VArr (elems : list jsval)
| VObj (fields : list (string * jsval)).

Inductive exn : Type :=
| TypeError
| SyntaxError.

(** ToBoolean. *)
Definition truthy (v : jsval) : bool :=
  match v with
  | VUndefined => false
  | VNull => false
  | VBool b => b
  | VNum n => negb (n =? 0)%Z
  | VStr s => negb (s =? "")
  | VArr _ => true
  | VObj _ => true
  end.

(** [a || b]. *)
Definition or_else (a b : jsval) : jsval := if truthy a then a else b.

Fixpoint lookup {A : Type} (k : string) (fs : list (string * A)) : option A :=
  match fs with
  | [] => None
  | (k', v) :: rest => if k' =? k then Some v else lookup k rest
  end.

(** [v[k]] for the property names the program reads ([data], [object],
    [text] and the generated [q...] keys): none of them is an own property
    of a primitive or an array nor a property of a built-in prototype, so
    only objects can answer with something else than [undefined]; reading a
    property of [null] or [undefined] throws. *)
Definition getProp (v : jsval) (k : string) : jsval + exn :=
  match v with
  | VUndefined | VNull => inr TypeError
  | VObj fs => inl (match lookup k fs with Some x => x | None => VUndefined end)
  | _ => inl VUndefined
  end.

(** [v?.k]. *)
Definition getPropOpt (v : jsval) (k : string) : jsval + exn :=
  match v with
  | VUndefined | VNull => inl VUndefined
  | _ => getProp v k
  end.

(** [Array.prototype.join]. *)
Definition join (sep : string) (l : list string) : string := String.concat sep l.

(** [s.replaceAll(c, r)] for a one-character pattern [c]; also
    [s.replaceAll(/c/g, r)]. *)
Fixpoint replaceAll (c : ascii) (r : string) (s : string) : string :=
  match s with
  | EmptyString => EmptyString
  | String a rest =>
      if Ascii.eqb a c then r ++ replaceAll c r rest
      else String a (replaceAll c r rest)
  end.

(** [s.startsWith(p)]. *)
Definition startsWith (s p : string) : bool := String.prefix p s.

(** ['' + n] for an integer [n] (decimal digits, with a minus sign). *)
Definition numberToString (n : Z) : string :=
  NilEmpty.string_of_int (Z.to_int n).

(** [Math.ceil(a / b)] for integers [a] and [b > 0]. For [b = 100] and
    [a] up to 2^53 in absolute value the rounding of the double-precision
    quotient is below 1/100, the least distance of an inexact quotient to an
    integer, so that the ceiling of the double is the ceiling of the
    fraction. *)
Definition Math_ceil_div (a b : Z) : Z := (- ((- a) / b))%Z.

(** White space skipped by [parseInt] among the code points a header value
    can hold: TAB, LF, VT, FF, CR, SP and NBSP. *)
Definition isWhiteSpace (c : ascii) : bool :=
  let n := nat_of_ascii c in
  ((9 <=? n) && (n <=? 13) || (n =? 32) || (n =? 160))%nat.

Definition digitValue (c : ascii) : option Z :=
  let n := nat_of_ascii c in
  if ((48 <=? n) && (n <=? 57))%nat then Some (Z.of_nat n - 48)%Z else None.

Fixpoint trimStart (s : string) : string :=
  match s with
  | String a rest => if isWhiteSpace a then trimStart rest else s
  | EmptyString => EmptyString
  end.

(** The longest prefix of decimal digits, with the value read so far. *)
Fixpoint readDigits (s : string) (acc : option Z) : option Z :=
  match s with
  | String a rest =>
      match digitValue a with
      | Some d =>
          readDigits rest
            (Some (10 * (match acc with Some v => v | None => 0 end) + d)%Z)
      | None => acc
      end
  | EmptyString => acc
  end.

(** [parseInt(s, 10)]; [None] is [NaN]. *)
Definition parseInt10 (s : string) : option Z :=
  match trimStart s with
  | String "-" rest => option_map Z.opp (readDigits rest None)
  | String "+" rest => readDigits rest None
  | t => readDigits t None
  end.

(** A [Date] object: a time value in milliseconds since the epoch, or the
    invalid date. *)
Inductive Date : Type :=
| ValidDate (ms : Z)
| InvalidDate.

(** [new Date(x)] for a number [x] ([None] is [NaN]): the time value is
    clipped to 8.64e15 ms on either side of the epoch. The products
    [n * 1000] the program builds are exact in double precision whenever
    they are in that range, and stay out of it after rounding otherwise. *)
Definition newDate (x : option Z) : Date :=
  match x with
  | Some ms =>
      if (Z.abs ms <=? 8640000000000000)%Z then ValidDate ms else InvalidDate
  | None => InvalidDate
  end.

(** [x * k] on numbers with [NaN]. *)
Definition times (x : option Z) (k : Z) : option Z :=
  option_map (fun n => (n * k)%Z) x.

End JS.

Import JS.

(** ** The [URL] object and its [searchParams] *)

Module URL.

Record t : Type := mk {
  href_base : string;                     (* scheme, host and path *)
  searchParams : list (string * string);  (* name-value pairs, in order *)
}.

(** [new URL(s)] for a string without a query part. *)
Definition new (s : string) : t := mk s [].

Fixpoint remove_name (name : string) (ps : list (string * string)) :=
  match ps with
  | [] => []
  | (n, v) :: rest =>
      if n =? name then remove_name name rest else (n, v) :: remove_name name rest
  end.

(** [URLSearchParams.set]: the first pair named [name] takes the value and
    the other pairs of that name are removed; without one, a pair is
    appended. *)
Fixpoint set_params (name value : string) (ps : list (string * string)) :=
  match ps with
  | [] => [(name, value)]
  | (n, v) :: rest =>
      if n =? name then (n, value) :: remove_name name rest
      else (n, v) :: set_params name value rest
  end.

Definition set (name value : string) (u : t) : t :=
  mk (href_base u) (set_params name value (searchParams u)).

(** [URLSearchParams.get]: the value of the first pair named [name]. *)
Definition get (name : string) (u : t) : option string :=
  lookup name (searchParams u).

End URL.

(** ** [makeSearchURL] *)

(** A qualifier's value: [string | Array<string>]. *)
Inductive qvalue : Type :=
| QScalar (s : string)
| QArray (l : list string).

(** [SearchURLOpts]: [qualifiers] as [Object.entries] enumerates it, that is
    the properties that are present, in insertion order. *)
Record SearchURLOpts : Type := {
  qualifiers : list (string * qvalue);
}.

(** [`${qk}:${qv}`]. *)
Definition token (qk qv : string) : string := qk ++ ":" ++ qv.

(** The body of the outer [for] loop: [q] after the pushes for one entry. *)
Definition pushEntry (q : list string) (e : string * qvalue) : list string :=
  let '(qk, qv) := e in
  match qv with
  | QArray l => fold_left (fun q qvd => q ++ [token qk qvd]) l q
  | QScalar s => q ++ [token qk s]
  end.

Definition makeSearchURL (opts : SearchURLOpts) : URL.t :=
  let url := URL.new "https://api.github.com/search/code" in
  let q := fold_left pushEntry (qualifiers opts) [] in
  let url := URL.set "q" (join " " q) url in
  let url := URL.set "per_page" "100" url in
  let url := URL.set "page" "1" url in
  url.

(** The specification's reading of the query: the values of a qualifier, and
    one [key:value] token per value, in encounter order. *)
Definition qvalues (v : qvalue) : list string :=
  match v with
  | QScalar s => [s]
  | QArray l => l
  end.

Definition specTokens (qs : list (string * qvalue)) : list string :=
  flat_map (fun e => map (token (fst e)) (qvalues (snd e))) qs.

Definition valueCount (qs : list (string * qvalue)) : nat :=
  list_sum (map (fun e => length (qvalues (snd e))) qs).

(** ** Data of the pipeline *)

(** An element of [CodeSearchResponse['items']]; the relevance [score], a
    floating-point number that the program never reads, is left out. *)
Record Owner : Type := { login : string }.

Record Repository : Type := {
  repo_name : string;
  fork : bool;
  owner : Owner;
}.

Record SearchItem : Type := {
  item_name : string;
  path : string;
  repository : Repository;
}.

Record CodeSearchResponse : Type := {
  total_count : Z;
  incomplete_results : bool;
  items : list SearchItem;
}.

(** [SyncSearchPageError]: the members of [SyncSearchPageResult] of kind
    ['error']. *)
Inductive SyncSearchPageError : Type :=
| Unauthorized
| RateLimited (reset : option Date).

Record Pages : Type := { remaining : Z; total : Z }.

Inductive SyncSearchPageResult : Type :=
| Success (pages : Pages)
| Error (e : SyncSearchPageError).

(** [SyncSearchPageOpts]. The [url] field is a reference to a [URL] object
    that [syncSearchPage] mutates: the object lives in the [world]. *)
Record SyncSearchPageOpts : Type := {
  ghToken : string;
  outdir : string;
  page : option Z;
}.

(** [syncOpts.page || d]: [undefined] and [0] are falsy. *)
Definition pageOr (p : option Z) (d : Z) : Z :=
  match p with
  | Some n => if truthy (VNum n) then n else d
  | None => d
  end.

(** ** The outside world *)

Record request : Type := {
  req_url : string;
  req_method : string;
  req_authorization : string;
  req_body : option string;
}.

(** A [Headers] object: the header list with lower-case names, each name
    once. *)
Definition Headers : Type := list (string * string).

Definition Headers_get (name : string) (h : Headers) : option string :=
  lookup name h.

(** A [Response]; [json] is the value [response.json()] resolves to, at the
    type the calling function declares for it, and [None] when the body does
    not parse. *)
Record Response (B : Type) : Type := {
  status : Z;
  headers : Headers;
  json : option B;
}.
Arguments status {B} _.
Arguments headers {B} _.
Arguments json {B} _.

(** Calls that leave the program. [EvMkdir d] is
    [mkdir(d, { recursive: true })]. *)
Inductive event : Type :=
| EvFetch (r : request)
| EvConsoleLog (args : list jsval)
| EvMkdir (dir : string)
| EvWriteFile (file : string) (data : jsval).

Record world : Type := {
  w_url : URL.t;            (* the object behind [syncOpts.url] *)
  w_uuids : nat;            (* how many UUIDs have been drawn *)
  w_trace : list event;     (* the calls made so far, oldest first *)
}.

(** What the program takes from its platform: [path.join],
    [URL.prototype.toString], [JSON.stringify], [crypto.randomUUID] (its
    successive results) and [fetch] at the two endpoints it is called on. *)
Class Runtime : Type := {
  path_join : string -> string -> string;
  URL_toString : URL.t -> string;
  JSON_stringify : jsval -> string;
  randomUUID : nat -> string;
  fetchSearch : request -> Response (CodeSearchResponse + SyncSearchPageError);
  fetchGraphql : request -> Response jsval;
}.

(** ** The monad of the [async] functions *)

Inductive outcome (A : Type) : Type :=
| Ret (a : A)
| Exit (code : Z)
| Throw (e : exn).
Arguments Ret {A} _.
Arguments Exit {A} _.
Arguments Throw {A} _.

Definition M (A : Type) : Type := world -> outcome A * world.

Definition ret {A : Type} (a : A) : M A := fun w => (Ret a, w).

Definition bind {A B : Type} (m : M A) (k : A -> M B) : M B :=
  fun w =>
    match m w with
    | (Ret a, w') => k a w'
    | (Exit c, w') => (Exit c, w')
    | (Throw e, w') => (Throw e, w')
    end.

Notation "x <- m ;; k" := (bind m (fun x => k))
  (at level 61, m at next level, right associativity).
Notation "m ;; k" := (bind m (fun _ => k))
  (at level 61, right associativity).

(** The world after the calls [evs] have been made. *)
Definition addTrace (w : world) (evs : list event) : world :=
  {| w_url := w_url w; w_uuids := w_uuids w; w_trace := w_trace w ++ evs |}.

Definition emit (ev : event) : M unit := fun w => (Ret tt, addTrace w [ev]).

Definition processExit {A : Type} (code : Z) : M A := fun w => (Exit code, w).

Definition throw {A : Type} (e : exn) : M A := fun w => (Throw e, w).

Definition liftJs {A : Type} (r : A + exn) : M A :=
  match r with
  | inl a => ret a
  | inr e => throw e
  end.

Definition getUrl : M URL.t := fun w => (Ret (w_url w), w).

Definition modifyUrl (f : URL.t -> URL.t) : M unit :=
  fun w =>
    (Ret tt,
     {| w_url := f (w_url w); w_uuids := w_uuids w; w_trace := w_trace w |}).

(** [response.json()]. *)
Definition responseJson {B : Type} (response : Response B) : M B :=
  match json response with
  | Some b => ret b
  | None => throw SyntaxError
  end.

(** [s] or [null] as a value. *)
Definition ofNullable (o : option string) : jsval :=
  match o with
  | Some s => VStr s
  | None => VNull
  end.

Definition nl : string := String "010"%char EmptyString.
Definition dq : string := String "034"%char EmptyString.

(** ** [errorFromGitHubResponse] *)

Definition isJsonContentType (h : Headers) : bool :=
  match Headers_get "content-type" h with
  | Some ct => startsWith ct "application/json"
  | None => false
  end.

Definition errorFromGitHubResponse {B : Type} (response : Response B)
  : M (option SyncSearchPageError) :=
  if negb (isJsonContentType (headers response)) then
    emit (EvConsoleLog [VStr "search/code"; VNum (status response);
                        ofNullable (Headers_get "content-type" (headers response))]) ;;
    processExit 1
  else if (status response =? 401)%Z then
    ret (Some Unauthorized)
  else if (status response =? 403)%Z then
    let rateLimitReset := Headers_get "x-ratelimit-reset" (headers response) in
    ret (Some (RateLimited
                 (if truthy (ofNullable rateLimitReset)
                  then match rateLimitReset with
                       | Some s => Some (newDate (times (parseInt10 s) 1000))
                       | None => None
                       end
                  else None)))
  else ret None.

(** ** [graphQueryForObjectText] *)

Definition graphQueryForObjectText (key owner repo path : string) : string :=
  key ++ ": repository(owner: " ++ dq ++ owner ++ dq ++ ", name: " ++ dq ++ repo ++ dq
      ++ ") {" ++ nl
  ++ "    object(expression: " ++ dq ++ "HEAD:" ++ path ++ dq ++ ") {" ++ nl
  ++ "        ... on Blob {" ++ nl
  ++ "            text" ++ nl
  ++ "        }" ++ nl
  ++ "    }" ++ nl
  ++ "}".

(** [item.repository.owner.login], [item.repository.name] and [item.path]
    turned into the item's query fragment. *)
Definition fragmentFor (key : string) (item : SearchItem) : string :=
  graphQueryForObjectText key (login (owner (repository item)))
    (repo_name (repository item)) (path item).

(** [`q${uuid.replaceAll('-', '')}`]. *)
Definition keyOfUUID (uuid : string) : string := "q" ++ replaceAll "-" "" uuid.

(** [json.data[key].object?.text]. *)
Definition aliasedText (json : jsval) (key : string) : jsval + exn :=
  match getProp json "data" with
  | inr e => inr e
  | inl data =>
      match getProp data key with
      | inr e => inr e
      | inl repo =>
          match getProp repo "object" with
          | inr e => inr e
          | inl obj => getPropOpt obj "text"
          end
      end
  end.

(** [json.data[key].object?.text || null]. *)
Definition extractText (json : jsval) (key : string) : jsval + exn :=
  match aliasedText json key with
  | inr e => inr e
  | inl text => inl (or_else text VNull)
  end.

(** The file name [syncToOutdir] derives from an item. *)
Definition filenameOf (item : SearchItem) : string :=
  login (owner (repository item)) ++ "_" ++ repo_name (repository item) ++ "_"
  ++ replaceAll "/" "_" (path item).

Section Program.

Context {rt : Runtime}.

(** ** [codeSearch] *)

Definition searchRequest (syncOpts : SyncSearchPageOpts) (url : URL.t) : request :=
  {| req_url := URL_toString url;
     req_method := "GET";
     req_authorization := "Bearer " ++ ghToken syncOpts;
     req_body := None |}.

Definition codeSearch (syncOpts : SyncSearchPageOpts)
  : M (CodeSearchResponse + SyncSearchPageError) :=
  url <- getUrl ;;
  let req := searchRequest syncOpts url in
  emit (EvFetch req) ;;
  let response := fetchSearch req in
  maybeError <- errorFromGitHubResponse response ;;
  match maybeError with
  | Some e => ret (inr e)
  | None => responseJson response
  end.

(** ** [retrieveObjectContents] *)

Definition drawUUID : M string :=
  fun w =>
    (Ret (randomUUID (w_uuids w)),
     {| w_url := w_url w; w_uuids := S (w_uuids w); w_trace := w_trace w |}).

(** The first loop: one key and one fragment pushed per item. *)
Fixpoint buildQuery (items : list SearchItem) (qKeys qParts : list string)
  : M (list string * list string) :=
  match items with
  | [] => ret (qKeys, qParts)
  | item :: rest =>
      uuid <- drawUUID ;;
      let key := keyOfUUID uuid in
      buildQuery rest (qKeys ++ [key]) (qParts ++ [fragmentFor key item])
  end.

(** The second loop: one content pushed per key. *)
Fixpoint readContents (json : jsval) (qKeys : list string)
  (objectContents : list jsval) : M (list jsval) :=
  match qKeys with
  | [] => ret objectContents
  | key :: rest =>
      c <- liftJs (extractText json key) ;;
      readContents json rest (objectContents ++ [c])
  end.

Definition queryDocument (qParts : list string) : string :=
  "query {" ++ nl ++ join nl qParts ++ nl ++ "}".

Definition graphqlRequest (ghToken : string) (query : string) : request :=
  {| req_url := "https://api.github.com/graphql";
     req_method := "POST";
     req_authorization := "Bearer " ++ ghToken;
     req_body := Some (JSON_stringify (VObj [("query", VStr query)])) |}.

Definition retrieveObjectContents (ghToken : string) (items : list SearchItem)
  : M (list jsval + SyncSearchPageError) :=
  kp <- buildQuery items [] [] ;;
  let qKeys := fst kp in
  let qParts := snd kp in
  let query := queryDocument qParts in
  let req := graphqlRequest ghToken query in
  emit (EvFetch req) ;;
  let response := fetchGraphql req in
  maybeError <- errorFromGitHubResponse response ;;
  match maybeError with
  | Some e => ret (inr e)
  | None =>
      json <- responseJson response ;;
      objectContents <- readContents json qKeys [] ;;
      ret (inl objectContents)
  end.

(** ** [syncToOutdir] *)

(** One turn of the [for] loop, at index [i]. *)
Definition syncToOutdirStep (outdir : string) (items : list SearchItem)
  (contents : list jsval) (i : nat) : M unit :=
  let objectContent := nth i contents VUndefined in
  if negb (truthy objectContent) then ret tt
  else
    match nth_error items i with
    | Some item =>
        emit (EvWriteFile (path_join outdir (filenameOf item)) objectContent)
    | None => throw TypeError
    end.

Fixpoint forEachIndex (idxs : list nat) (body : nat -> M unit) : M unit :=
  match idxs with
  | [] => ret tt
  | i :: rest => body i ;; forEachIndex rest body
  end.

Definition syncToOutdir (outdir : string) (items : list SearchItem)
  (contents : list jsval) : M unit :=
  emit (EvMkdir outdir) ;;
  forEachIndex (seq 0 (length items)) (syncToOutdirStep outdir items contents).

(** ** [syncSearchPage] *)

(** The opening [if (syncOpts.page)] statement: [syncOpts.url] is mutated in
    place. *)
Definition applyPage (syncOpts : SyncSearchPageOpts) : M unit :=
  match page syncOpts with
  | Some n =>
      if truthy (VNum n) then modifyUrl (URL.set "page" (numberToString n))
      else ret tt
  | None => ret tt
  end.

Definition syncSearchPage (syncOpts : SyncSearchPageOpts)
  : M SyncSearchPageResult :=
  applyPage syncOpts ;;
  searchResponse <- codeSearch syncOpts ;;
  match searchResponse with
  | inr e => ret (Error e)
  | inl searchResponse =>
      contents <- retrieveObjectContents (ghToken syncOpts) (items searchResponse) ;;
      match contents with
      | inr e => ret (Error e)
      | inl contents =>
          syncToOutdir (outdir syncOpts) (items searchResponse) contents ;;
          let pageCount := Math_ceil_div (total_count searchResponse) 100 in
          ret (Success {| remaining := pageCount - pageOr (page syncOpts) 1;
                          total := pageCount |})
      end
  end.

End Program.

(** ** Definitions used to state the properties *)

(** The world after [n] more UUIDs have been drawn. *)
Definition advance (w : world) (n : nat) : world :=
  {| w_url := w_url w; w_uuids := w_uuids w + n; w_trace := w_trace w |}.

Section Statements.

Context {rt : Runtime}.

(** The correlation keys generated for [n] items when [k] UUIDs were drawn
    before, in generation order. *)
Definition keysFrom (k n : nat) : list string :=
  map (fun i => keyOfUUID (randomUUID i)) (seq k n).

(** The fragment of each item under the key of the same position. *)
Definition partsFor (keys : list string) (items : list SearchItem) : list string :=
  map (fun ki => fragmentFor (fst ki) (snd ki)) (combine keys items).

(** The batch request for [items] issued from the world [w]. *)
Definition contentRequest (ghToken : string) (items : list SearchItem)
  (w : world) : request :=
  graphqlRequest ghToken
    (queryDocument (partsFor (keysFrom (w_uuids w) (length items)) items)).

(** The [writeFile] calls for positionally paired items and contents: one
    per pair whose content is truthy. *)
Definition writesFor (outdir : string) (items : list SearchItem)
  (contents : list jsval) : list event :=
  flat_map
    (fun ic =>
       if truthy (snd ic)
       then [EvWriteFile (path_join outdir (filenameOf (fst ic))) (snd ic)]
       else [])
    (combine items contents).

(** The writes as the specification words them: one file per item whose
    content is not null. *)
Definition specWrites (outdir : string) (items : list SearchItem)
  (contents : list (option string)) : list event :=
  flat_map
    (fun ic =>
       match snd ic with
       | Some c => [EvWriteFile (path_join outdir (filenameOf (fst ic))) (VStr c)]
       | None => []
       end)
    (combine items contents).

(** The writes for contents that are neither null nor the empty string. *)
Definition nonEmptyWrites (outdir : string) (items : list SearchItem)
  (contents : list (option string)) : list event :=
  flat_map
    (fun ic =>
       match snd ic with
       | Some c =>
           if c =? "" then []
           else [EvWriteFile (path_join outdir (filenameOf (fst ic))) (VStr c)]
       | None => []
       end)
    (combine items contents).

(** The world in which the search request is made: after the opening
    statement of [syncSearchPage]. *)
Definition afterPage (syncOpts : SyncSearchPageOpts) (w : world) : world :=
  snd (applyPage syncOpts w).

(** The contents read under a list of keys, in the order of the keys. *)
Fixpoint extractAll (json : jsval) (keys : list string) : list jsval + exn :=
  match keys with
  | [] => inl []
  | key :: rest =>
      match extractText json key with
      | inr e => inr e
      | inl c =>
          match extractAll json rest with
          | inr e => inr e
          | inl cs => inl (c :: cs)
          end
      end
  end.

End Statements.

(** The current page as the specification words it: the page number, 1 when
    none is given. *)
Definition specCurrentPage (p : option Z) : Z :=
  match p with
  | Some n => n
  | None => 1%Z
  end.

(** The reset time as the specification words it: the header read as epoch
    seconds when it is present, null otherwise. *)
Definition specReset (h : option string) : option Date :=
  match h with
  | Some s => Some (newDate (times (parseInt10 s) 1000))
  | None => None
  end.

(** The [console.log] call that precedes [process.exit(1)]. *)
Definition fatalLog {B : Type} (response : Response B) : event :=
  EvConsoleLog [VStr "search/code"; VNum (status response);
                ofNullable (Headers_get "content-type" (headers response))].

(** [w'] is [w] after some more calls, with the same [URL] object. *)
Definition extends (w w' : world) : Prop :=
  w_url w' = w_url w /\ exists evs, w_trace w' = w_trace w ++ evs.

(** ** The requests and the contents, written out

    These definitions do not go through the functions of the program: the
    properties compare what the program builds and returns with them. *)

(** The tokens of a qualifier mapping: [key:value] for each value of each
    qualifier, in encounter order. *)
Definition keyValueTokens (qs : list (string * qvalue)) : list string :=
  flat_map
    (fun e => map (fun value => (fst e ++ ":" ++ value)%string) (qvalues (snd e)))
    qs.

(** The sub-query for one item under the alias [key]: the repository by owner
    and name, the object at [HEAD:path] and the text of the blob. *)
Definition aliasedFragment (key : string) (item : SearchItem) : string :=
  let q := String "034"%char EmptyString in
  let lf := String "010"%char EmptyString in
  (key ++ ": repository(owner: " ++ q ++ login (owner (repository item)) ++ q
   ++ ", name: " ++ q ++ repo_name (repository item) ++ q ++ ") {" ++ lf
   ++ "    object(expression: " ++ q ++ "HEAD:" ++ path item ++ q ++ ") {" ++ lf
   ++ "        ... on Blob {" ++ lf
   ++ "            text" ++ lf
   ++ "        }" ++ lf
   ++ "    }" ++ lf
   ++ "}")%string.

(** The fragment of each item under the key of its position. *)
Definition aliasedFragments (keys : list string) (items : list SearchItem)
  : list string :=
  map (fun ki => aliasedFragment (fst ki) (snd ki)) (combine keys items).

(** The composite query: the fragments, one after the other, between the
    braces of one [query]. *)
Definition batchQuery (fragments : list string) : string :=
  let lf := String "010"%char EmptyString in
  ("query {" ++ lf ++ String.concat lf fragments ++ lf ++ "}")%string.

(** The POST that carries a composite query. *)
Definition batchRequest {rt : Runtime} (ghToken : string) (query : string) : request :=
  {| req_url := "https://api.github.com/graphql";
     req_method := "POST";
     req_authorization := ("Bearer " ++ ghToken)%string;
     req_body := Some (JSON_stringify (VObj [("query", VStr query)])) |}.

(** The text field of the result aliased [key] in a batch answer, read off
    the shape of the answer: the [text] of the [object] of the member [key]
    of [data], and [undefined] where the answer has no such thing. *)
Definition answerText (answer : jsval) (key : string) : jsval :=
  match answer with
  | VObj members =>
      match lookup "data" members with
      | Some (VObj results) =>
          match lookup key results with
          | Some (VObj repo) =>
              match lookup "object" repo with
              | Some (VObj blob) =>
                  match lookup "text" blob with
                  | Some text => text
                  | None => VUndefined
                  end
              | _ => VUndefined
              end
          | _ => VUndefined
          end
      | _ => VUndefined
      end
  | _ => VUndefined
  end.

(** The content of an item as the specification words it: the text, and null
    when the aliased result has no blob text. *)
Definition contentAsStated (text : jsval) : jsval :=
  match text with
  | VUndefined | VNull => VNull
  | t => t
  end.

(** ** Test doubles *)

Module Doubles.

Definition jsonHeaders : Headers := [("content-type", "application/json; charset=utf-8")].

Definition htmlHeaders : Headers := [("content-type", "text/html")].

Definition resp {B : Type} (st : Z) (h : Headers) (b : option B) : Response B :=
  {| status := st; headers := h; json := b |}.

Definition serialize (u : URL.t) : string :=
  URL.href_base u ++ "?"
  ++ join "&" (map (fun nv => (fst nv ++ "=" ++ snd nv)%string) (URL.searchParams u)).

Definition stringify (v : jsval) : string :=
  match v with
  | VObj [(_, VStr q)] => q
  | _ => ""
  end.

(** A platform that answers every search with [sr] and every batch request
    with [gr]; its n-th UUID is [u-n]. *)
Definition runtime (sr : Response (CodeSearchResponse + SyncSearchPageError))
  (gr : Response jsval) : Runtime :=
  {| path_join := fun d f => (d ++ "/" ++ f)%string;
     URL_toString := serialize;
     JSON_stringify := stringify;
     randomUUID := fun n => ("u-" ++ numberToString (Z.of_nat n))%string;
     fetchSearch := fun _ => sr;
     fetchGraphql := fun _ => gr |}.

Definition item1 : SearchItem :=
  {| item_name := "c.sql";
     path := "a/b/c.sql";
     repository := {| repo_name := "r"; fork := false; owner := {| login := "o" |} |} |}.

Definition item2 : SearchItem :=
  {| item_name := "d.sql";
     path := "d.sql";
     repository := {| repo_name := "r"; fork := false; owner := {| login := "o" |} |} |}.

Definition found (n : Z) (l : list SearchItem) : CodeSearchResponse :=
  {| total_count := n; incomplete_results := false; items := l |}.

Definition blob (text : jsval) : jsval :=
  VObj [("object", VObj [("text", text)])].

(** A batch answer for the keys [qu0] and [qu1]. *)
Definition batch (t0 t1 : jsval) : jsval :=
  VObj [("data", VObj [("qu0", blob t0); ("qu1", blob t1)])].

Definition opts (p : option Z) : SyncSearchPageOpts :=
  {| ghToken := "t"; outdir := "out"; page := p |}.

Definition world0 : world :=
  {| w_url := URL.mk "https://api.github.com/search/code"
                [("q", "extension:sql"); ("per_page", "100"); ("page", "1")];
     w_uuids := 0;
     w_trace := [] |}.

Definition limitedHeaders (reset : string) : Headers :=
  ("x-ratelimit-reset", reset) :: jsonHeaders.

(** Two matches out of 250; the first has content [X], the second an empty
    blob. *)
Definition rtOk : Runtime :=
  runtime (resp 200 jsonHeaders (Some (inl (found 250 [item1; item2]))))
          (resp 200 jsonHeaders (Some (batch (VStr "X") (VStr "")))).

Definition rtUnauthorized : Runtime :=
  runtime (resp 401 jsonHeaders None) (resp 200 jsonHeaders None).

Definition rtBatchLimited : Runtime :=
  runtime (resp 200 jsonHeaders (Some (inl (found 250 [item1; item2]))))
          (resp 403 (limitedHeaders "1700000000") None).

Definition rtSearchHtml : Runtime :=
  runtime (resp 200 htmlHeaders None) (resp 200 jsonHeaders None).

Definition rtBatchHtml : Runtime :=
  runtime (resp 200 jsonHeaders (Some (inl (found 250 [item1; item2]))))
          (resp 502 htmlHeaders None).

Definition rtNoMatch : Runtime :=
  runtime (resp 200 jsonHeaders (Some (inl (found 0 []))))
          (resp 200 jsonHeaders (Some (VObj [("data", VObj [])]))).

End Doubles.

(** ** The command line: [bin.ts] *)

(** [s.endsWith(suffix)]. *)
Definition endsWith (s suffix : string) : bool :=
  let n := String.length s in
  let m := String.length suffix in
  (m <=? n)%nat && (substring (n - m) m s =? suffix).

(** A call of [console.error] or [console.log], with its arguments. *)
Inductive consoleLine : Type :=
| ConsoleError (args : list jsval)
| ConsoleLog (args : list jsval).

(** A step of the command line that returns [a], or prints and leaves through
    [process.exit(code)]. *)
Inductive parsed (A : Type) : Type :=
| Parsed (a : A)
| Quit (printed : list consoleLine) (code : Z).
Arguments Parsed {A} _.
Arguments Quit {A} _ _.

Definition esc : string := String "027"%char EmptyString.

Definition red (s : string) : string := esc ++ "[31m" ++ s ++ esc ++ "[0m".

Definition printError (s : string) : list consoleLine :=
  [ConsoleError [VStr (red "error:"); VStr s]].

(** The lines [printHelp] logs after the optional error. *)
Definition helpText : list consoleLine :=
  [ConsoleLog [VStr "poultry [OPTIONS] --out-dir OUT_DIR"];
   ConsoleLog [];
   ConsoleLog [VStr "Search options:"];
   ConsoleLog [VStr "    --ext       Files with extension"];
   ConsoleLog [VStr "    --filename  Files with name"];
   ConsoleLog [VStr "    --in        Files with name"];
   ConsoleLog [VStr "    --lang      Search for language"];
   ConsoleLog [VStr "    --org       Within org's repos"];
   ConsoleLog [VStr "    --path      With a path qualifier"];
   ConsoleLog [VStr "    --repo      Within a repo"];
   ConsoleLog [VStr "    --size      On file size using formats >n <n *..n n..*"];
   ConsoleLog [VStr "    --user      Within user's repos"]].

(** [printHelp(msg?)]: [None] is the call without argument. *)
Definition printHelp {A : Type} (msg : option string) : parsed A :=
  Quit ((if truthy (ofNullable msg)
         then match msg with Some m => printError m | None => [] end
         else []) ++ helpText) 1.

Definition errorExit {A : Type} (s : string) : parsed A :=
  Quit (printError s) 1.

Record PoultryArgs : Type := {
  args_outdir : string;
  args_qualifiers : list (string * qvalue);
}.

Definition programNames : list string := ["poultry"; "bin.js"; "bin.ts"].

(** [!shifted || programNames.some(name => shifted.endsWith(name))]. *)
Definition endsScan (shifted : string) : bool :=
  negb (truthy (VStr shifted))
  || existsb (fun name => endsWith shifted name) programNames.

(** The first [while] loop of [collectArgs]: arguments are shifted until one
    is falsy or ends with a program name; what is left is returned. *)
Fixpoint skipProgram (args : list string) : list string :=
  match args with
  | [] => []
  | shifted :: rest => if endsScan shifted then rest else skipProgram rest
  end.

Definition isHelpFlag (arg : string) : bool := (arg =? "-h") || (arg =? "--help").

(** [qualifiers[field] = v]: an own property keeps its place, a new one goes
    last. *)
Fixpoint assign (field : string) (v : qvalue) (qualifiers : list (string * qvalue))
  : list (string * qvalue) :=
  match qualifiers with
  | [] => [(field, v)]
  | (k, old) :: rest =>
      if k =? field then (k, v) :: rest else (k, old) :: assign field v rest
  end.

(** [addSearchOption(field, value)], on the [qualifiers] object it closes
    over. *)
Definition addSearchOption (field value : string)
  (qualifiers : list (string * qvalue)) : list (string * qvalue) :=
  match lookup field qualifiers with
  | Some (QArray l) => assign field (QArray (l ++ [value])) qualifiers
  | Some (QScalar s) => assign field (QArray [s; value]) qualifiers
  | None => assign field (QScalar value) qualifiers
  end.

(** The [case] labels of the [switch]: the output directory, a qualifier
    added as it is, [--in] with its check, and [default]. *)
Inductive flagKind : Type :=
| FlagOutdir
| FlagQualifier (field : string)
| FlagIn
| FlagDefault.

Definition flagOf (shifted : string) : flagKind :=
  if (shifted =? "--out-dir") || (shifted =? "--outdir") then FlagOutdir
  else if (shifted =? "--ext") || (shifted =? "--extension") then FlagQualifier "extension"
  else if shifted =? "--filename" then FlagQualifier "filename"
  else if shifted =? "--in" then FlagIn
  else if (shifted =? "--lang") || (shifted =? "--language") then FlagQualifier "language"
  else if shifted =? "--org" then FlagQualifier "org"
  else if shifted =? "--path" then FlagQualifier "path"
  else if shifted =? "--repo" then FlagQualifier "repo"
  else if shifted =? "--user" then FlagQualifier "user"
  else if shifted =? "--size" then FlagQualifier "size"
  else FlagDefault.

(** [!maybe || maybe.startsWith('--')] for a value that was shifted. *)
Definition badValue (maybe : string) : bool :=
  negb (truthy (VStr maybe)) || startsWith maybe "--".

Definition validIn : list string := ["file"; "path"; "file,path"; "path,file"].

Definition inMessage : string :=
  "--in must be one of "
  ++ join " " (map (fun v => ("--in " ++ dq ++ v ++ dq)%string) validIn).

(** The second [while] loop of [collectArgs], from the state of [outdir] and
    [qualifiers]. *)
Fixpoint parseOptions (args : list string) (outdir : option string)
  (qualifiers : list (string * qvalue))
  : parsed (option string * list (string * qvalue)) :=
  match args with
  | [] => Parsed (outdir, qualifiers)
  | shifted :: rest =>
      match flagOf shifted with
      | FlagDefault => printHelp (Some (shifted ++ " isn't an arg")%string)
      | kind =>
          match rest with
          | [] => printHelp (Some (shifted ++ " missing value")%string)
          | maybe :: rest' =>
              if badValue maybe then printHelp (Some (shifted ++ " missing value")%string)
              else
                match kind with
                | FlagOutdir => parseOptions rest' (Some maybe) qualifiers
                | FlagIn =>
                    if existsb (String.eqb maybe) validIn
                    then parseOptions rest' outdir (addSearchOption "in" maybe qualifiers)
                    else errorExit inMessage
                | FlagQualifier field =>
                    parseOptions rest' outdir (addSearchOption field maybe qualifiers)
                | FlagDefault => printHelp (Some (shifted ++ " isn't an arg")%string)
                end
          end
      end
  end.

(** [collectArgs], applied to [process.argv]. *)
Definition collectArgs (argv : list string) : parsed PoultryArgs :=
  let args := skipProgram argv in
  if existsb isHelpFlag args then printHelp None
  else
    match parseOptions args None [] with
    | Quit printed code => Quit printed code
    | Parsed (outdir, qualifiers) =>
        if (length qualifiers =? 0)%nat
        then printHelp (Some "at least one search option is required")
        else
          match outdir with
          | Some o =>
              if truthy (VStr o) then Parsed {| args_outdir := o; args_qualifiers := qualifiers |}
              else printHelp (Some "--out-dir is required")
          | None => printHelp (Some "--out-dir is required")
          end
    end.

(** What the script reads from its process. *)
Record Process : Type := {
  argv : list string;
  GH_TOKEN : option string;
}.

(** [Date.prototype.toLocaleTimeString], which depends on the locale. *)
Class Locale : Type := {
  toLocaleTimeString : Date -> string;
}.

(** How the script ends: at the end of the module, through [process.exit] or
    with an exception nobody catches. *)
Inductive termination : Type :=
| Finished
| Exited (code : Z)
| Uncaught (e : exn).

Record cliRun : Type := {
  printed : list consoleLine;   (* what the script itself printed *)
  ending : termination;
}.

(** ['api rate limit exceeded, retry after ' +
     syncResult.reset?.toLocaleTimeString() || '1 minute']: the sum is made
    first, and [||] tests the sum. *)
Definition rateLimitMessage {loc : Locale} (reset : option Date) : string :=
  let sum : string :=
    ("api rate limit exceeded, retry after "
     ++ match reset with
        | Some d => toLocaleTimeString d
        | None => "undefined"
        end)%string in
  if truthy (VStr sum) then sum else "1 minute".

(** The world in which [url] is the object behind [syncOpts.url]. *)
Definition withUrl (url : URL.t) (w : world) : world :=
  {| w_url := url; w_uuids := w_uuids w; w_trace := w_trace w |}.

Section Script.

Context {rt : Runtime} {loc : Locale}.

(** The module [bin.ts]: the arguments, the token, one page sync and its
    report. *)
Definition main (proc : Process) (w : world) : cliRun * world :=
  match collectArgs (argv proc) with
  | Quit printed code => ({| printed := printed; ending := Exited code |}, w)
  | Parsed args =>
      match GH_TOKEN proc with
      | Some ghToken =>
          if truthy (VStr ghToken) then
            let url := makeSearchURL {| qualifiers := args_qualifiers args |} in
            let syncOpts :=
              {| ghToken := ghToken; outdir := args_outdir args; page := None |} in
            match syncSearchPage syncOpts (withUrl url w) with
            | (Ret (Error (RateLimited reset)), w') =>
                ({| printed := printError (rateLimitMessage reset);
                    ending := Exited 1 |}, w')
            | (Ret (Error Unauthorized), w') =>
                ({| printed := printError "GH_TOKEN is not valid";
                    ending := Exited 1 |}, w')
            | (Ret (Success pages), w') =>
                ({| printed :=
                      [ConsoleLog [VStr "synced page";
                                   VNum (total pages - remaining pages);
                                   VStr "out of"; VNum (total pages); VStr "pages"]];
                    ending := Finished |}, w')
            | (Exit code, w') => ({| printed := []; ending := Exited code |}, w')
            | (Throw e, w') => ({| printed := []; ending := Uncaught e |}, w')
            end
          else
            ({| printed := printError "GH_TOKEN env var is required";
                ending := Exited 1 |}, w)
      | None =>
          ({| printed := printError "GH_TOKEN env var is required";
              ending := Exited 1 |}, w)
      end
  end.

End Script.

(** ** Definitions used to state the properties of the command line *)

(** The values a qualifier holds, none when it is absent. *)
Definition valuesAt (field : string) (qualifiers : list (string * qvalue))
  : list string :=
  match lookup field qualifiers with
  | Some v => qvalues v
  | None => []
  end.

(** The qualifier a flag feeds, if any. *)
Definition fieldOf (flag : string) : option string :=
  match flagOf flag with
  | FlagQualifier field => Some field
  | FlagIn => Some "in"
  | FlagOutdir | FlagDefault => None
  end.

Definition qualifierNames : list string :=
  ["extension"; "filename"; "in"; "language"; "org"; "path"; "repo"; "size"; "user"].

(** A flag with its value, as the second loop accepts them. *)
Definition acceptedOption (fv : string * string) : bool :=
  negb (badValue (snd fv))
  && match flagOf (fst fv) with
     | FlagDefault => false
     | FlagIn => existsb (String.eqb (snd fv)) validIn
     | FlagOutdir | FlagQualifier _ => true
     end.

(** The arguments that spell a list of flags with their values. *)
Definition optionArgs (options : list (string * string)) : list string :=
  flat_map (fun fv => [fst fv; snd fv]) options.

(** The values given to the flags of one qualifier, in command-line order. *)
Definition givenFor (field : string) (options : list (string * string))
  : list string :=
  map snd
    (filter (fun fv => match fieldOf (fst fv) with
                       | Some f => f =? field
                       | None => false
                       end) options).

(** The values given to the output-directory flags, in command-line order. *)
Definition givenOutdirs (options : list (string * string)) : list string :=
  map snd
    (filter (fun fv => match flagOf (fst fv) with
                       | FlagOutdir => true
                       | _ => false
                       end) options).

(** The last of the values given, [o] when none is. *)
Definition lastGiven (given : list string) (o : option string) : option string :=
  match rev given with
  | [] => o
  | d :: _ => Some d
  end.

(** The output of a way out of the command line: the help after an error, or
    the error of [--in] alone. *)
Definition quitShape (printed : list consoleLine) : Prop :=
  (exists msg, msg <> "" /\ printed = printError msg ++ helpText)
  \/ printed = printError inMessage.

(** What holds of the [qualifiers] object all along the second loop. *)
Definition goodQualifiers (qualifiers : list (string * qvalue)) : Prop :=
  NoDup (map fst qualifiers)
  /\ Forall
       (fun kv =>
          In (fst kv) qualifierNames
          /\ qvalues (snd kv) <> []
          /\ Forall (fun v => badValue v = false) (qvalues (snd kv))
          /\ (fst kv = "in" -> Forall (fun v => In v validIn) (qvalues (snd kv)))
          /\ (forall l, snd kv = QArray l -> 2 <= length l))
       qualifiers.

(** Events of the file system. *)
Definition isFsEvent (ev : event) : bool :=
  match ev with
  | EvMkdir _ | EvWriteFile _ _ => true
  | EvFetch _ | EvConsoleLog _ => false
  end.

(** Calls of [console.log] and no other. *)
Definition logsOnly (evs : list event) : Prop :=
  Forall (fun ev => exists args, ev = EvConsoleLog args) evs.

Definition isFetchEvent (ev : event) : bool :=
  match ev with
  | EvFetch _ => true
  | _ => false
  end.

(** The characters of a string. *)
Definition chars (s : string) : list ascii := list_ascii_of_string s.

(** The options and the URL [bin.ts] passes to [syncSearchPage], for the
    token [tok] and the collected arguments. *)
Definition scriptOpts (tok : string) (args : PoultryArgs) : SyncSearchPageOpts :=
  {| ghToken := tok; outdir := args_outdir args; page := None |}.

Definition scriptUrl (args : PoultryArgs) : URL.t :=
  makeSearchURL {| qualifiers := args_qualifiers args |}.

Module CliDoubles.

Definition locale : Locale :=
  {| toLocaleTimeString :=
       fun d => match d with
                | ValidDate ms => numberToString ms
                | InvalidDate => "Invalid Date"
                end |}.

Definition options : list (string * string) :=
  [("--ext", "sql"); ("--user", "a"); ("--out-dir", "tmp"); ("--user", "b");
   ("--outdir", "out")].

Definition argvOk : list string :=
  "/usr/bin/node" :: "/opt/poultry/lib/bin.js" :: optionArgs options.

Definition proc (tok : option string) : Process :=
  {| argv := argvOk; GH_TOKEN := tok |}.

Definition rtLimited (reset : string) : Runtime :=
  Doubles.runtime (Doubles.resp 403 (Doubles.limitedHeaders reset) None)
                  (Doubles.resp 200 Doubles.jsonHeaders None).

Definition rtLimitedNoReset : Runtime :=
  Doubles.runtime (Doubles.resp 403 Doubles.jsonHeaders None)
                  (Doubles.resp 200 Doubles.jsonHeaders None).

(** A batch answer in which the repository of the second item is null. *)
Definition rtMissingRepository : Runtime :=
  Doubles.runtime
    (Doubles.resp 200 Doubles.jsonHeaders
       (Some (inl (Doubles.found 2 [Doubles.item1; Doubles.item2]))))
    (Doubles.resp 200 Doubles.jsonHeaders
       (Some (VObj [("data", VObj [("qu0", Doubles.blob (VStr "X")); ("qu1", VNull)])]))).

Definition argsOk : PoultryArgs :=
  {| args_outdir := "out";
     args_qualifiers := [("extension", QScalar "sql"); ("user", QArray ["a"; "b"])] |}.

End CliDoubles.

(** * Properties *)

Section QueryBuilder.

Lemma push_array_tokens (qk : string) (l : list string) (q : list string) :
  fold_left (fun q qvd => q ++ [token qk qvd]) l q = q ++ map (token qk) l.
Proof.
  revert q; induction l as [|x l IH]; intros q; simpl.
  - now rewrite app_nil_r.
  - rewrite IH, <- app_assoc. reflexivity.
Qed.

Lemma pushEntry_tokens (q : list string) (e : string * qvalue) :
  pushEntry q e = q ++ map (token (fst e)) (qvalues (snd e)).
Proof.
  destruct e as [qk [s|l]]; simpl.
  - reflexivity.
  - apply push_array_tokens.
Qed.

Lemma loop_tokens (qs : list (string * qvalue)) (q : list string) :
  fold_left pushEntry qs q = q ++ specTokens qs.
Proof.
  revert q; induction qs as [|e qs IH]; intros q; simpl.
  - now rewrite app_nil_r.
  - rewrite IH, pushEntry_tokens, <- app_assoc. reflexivity.
Qed.

Lemma specTokens_length (qs : list (string * qvalue)) :
  length (specTokens qs) = valueCount qs.
Proof.
  unfold specTokens, valueCount.
  induction qs as [|e qs IH]; simpl; [reflexivity|].
  rewrite length_app, length_map, IH. reflexivity.
Qed.

End QueryBuilder.

(** C2. For every qualifier mapping (with at least one entry or not), the URL
    built by [makeSearchURL] is the search endpoint with exactly three
    parameters: [q], the tokens [key:value], one per scalar value or array
    element and in encounter order, joined by single spaces; [per_page], 100;
    and [page], 1. There are as many tokens as values. *)
Theorem makeSearchURL_query (opts : SearchURLOpts) :
  let url := makeSearchURL opts in
  let tokens := keyValueTokens (qualifiers opts) in
  URL.searchParams url =
    [("q", String.concat " " tokens); ("per_page", "100"); ("page", "1")]
  /\ URL.href_base url = "https://api.github.com/search/code"
  /\ length tokens = valueCount (qualifiers opts)
  /\ URL.get "q" url = Some (String.concat " " tokens)
  /\ URL.get "per_page" url = Some "100"
  /\ URL.get "page" url = Some "1".
Proof.
  intros url tokens.
  assert (E : URL.searchParams url =
              [("q", String.concat " " tokens); ("per_page", "100"); ("page", "1")]).
  { unfold url, makeSearchURL. rewrite loop_tokens. reflexivity. }
  split; [exact E|]. split; [reflexivity|].
  split; [apply (specTokens_length (qualifiers opts))|].
  unfold URL.get. rewrite E. repeat split.
Qed.

(** ** Worlds and the monad *)

Lemma addTrace_nil (w : world) : addTrace w [] = w.
Proof. destruct w; unfold addTrace; simpl. now rewrite app_nil_r. Qed.

Lemma addTrace_app (w : world) (a b : list event) :
  addTrace (addTrace w a) b = addTrace w (a ++ b).
Proof. unfold addTrace; simpl. now rewrite app_assoc. Qed.

(** ** Classification of responses *)

Section Classification.

Context {B : Type}.
Variable response : Response B.
Variable w : world.

Lemma error_not_json :
  isJsonContentType (headers response) = false ->
  errorFromGitHubResponse response w = (Exit 1, addTrace w [fatalLog response]).
Proof.
  intros H. unfold errorFromGitHubResponse. rewrite H. reflexivity.
Qed.

Lemma error_401 :
  isJsonContentType (headers response) = true ->
  status response = 401%Z ->
  errorFromGitHubResponse response w = (Ret (Some Unauthorized), w).
Proof.
  intros H E. unfold errorFromGitHubResponse. rewrite H, E. reflexivity.
Qed.

Lemma error_403 :
  isJsonContentType (headers response) = true ->
  status response = 403%Z ->
  errorFromGitHubResponse response w =
    (Ret (Some (RateLimited
                  (match Headers_get "x-ratelimit-reset" (headers response) with
                   | Some s =>
                       if s =? "" then None
                       else Some (newDate (times (parseInt10 s) 1000))
                   | None => None
                   end))), w).
Proof.
  intros H E. unfold errorFromGitHubResponse. rewrite H, E. simpl.
  destruct (Headers_get "x-ratelimit-reset" (headers response)) as [s|]; simpl;
    [destruct (s =? "")|]; reflexivity.
Qed.

Lemma error_other :
  isJsonContentType (headers response) = true ->
  status response <> 401%Z ->
  status response <> 403%Z ->
  errorFromGitHubResponse response w = (Ret None, w).
Proof.
  intros H E1 E3. unfold errorFromGitHubResponse. rewrite H. simpl.
  apply Z.eqb_neq in E1, E3. rewrite E1, E3. reflexivity.
Qed.

(** Whatever the response, the classification leaves the URL and the UUID
    counter alone and makes no call but the fatal [console.log]. *)
Lemma error_world :
  exists evs,
    snd (errorFromGitHubResponse response w) = addTrace w evs
    /\ Forall (fun ev => exists args, ev = EvConsoleLog args) evs
    /\ (forall r, fst (errorFromGitHubResponse response w) = Ret r -> evs = []).
Proof.
  unfold errorFromGitHubResponse.
  destruct (isJsonContentType (headers response)); simpl.
  - exists []. rewrite addTrace_nil.
    destruct (status response =? 401)%Z; [|destruct (status response =? 403)%Z];
      simpl; auto.
  - exists [fatalLog response]. repeat split.
    + constructor; [eexists; reflexivity | constructor].
    + intros r Hr. discriminate Hr.
Qed.

End Classification.

(** ** The steps of the pipeline *)

Section Steps.

Context {rt : Runtime}.

Lemma applyPage_ret (syncOpts : SyncSearchPageOpts) (w : world) :
  applyPage syncOpts w = (Ret tt, afterPage syncOpts w).
Proof.
  unfold afterPage, applyPage.
  destruct (page syncOpts) as [n|]; [destruct (truthy (VNum n))|]; reflexivity.
Qed.

Lemma afterPage_frame (syncOpts : SyncSearchPageOpts) (w : world) :
  w_trace (afterPage syncOpts w) = w_trace w
  /\ w_uuids (afterPage syncOpts w) = w_uuids w.
Proof.
  unfold afterPage, applyPage.
  destruct (page syncOpts) as [n|]; [destruct (truthy (VNum n))|]; split; reflexivity.
Qed.

(** [codeSearch] is the request, its classification and the parsed body. *)
Lemma codeSearch_unfold (syncOpts : SyncSearchPageOpts) (w : world) :
  let req := searchRequest syncOpts (w_url w) in
  codeSearch syncOpts w =
    match errorFromGitHubResponse (fetchSearch req) (addTrace w [EvFetch req]) with
    | (Ret (Some e), w') => (Ret (inr e), w')
    | (Ret None, w') =>
        match json (fetchSearch req) with
        | Some b => (Ret b, w')
        | None => (Throw SyntaxError, w')
        end
    | (Exit c, w') => (Exit c, w')
    | (Throw e, w') => (Throw e, w')
    end.
Proof.
  intros req. unfold codeSearch, bind, getUrl, emit. fold req.
  destruct (errorFromGitHubResponse (fetchSearch req) (addTrace w [EvFetch req]))
    as [[[e|]|c|e] w']; try reflexivity.
  unfold responseJson. destruct (json (fetchSearch req)); reflexivity.
Qed.

(** A search that returns, returns after exactly one call: the request. *)
Lemma codeSearch_ret_world (syncOpts : SyncSearchPageOpts) (w w' : world)
  (r : CodeSearchResponse + SyncSearchPageError) :
  codeSearch syncOpts w = (Ret r, w') ->
  w' = addTrace w [EvFetch (searchRequest syncOpts (w_url w))].
Proof.
  rewrite codeSearch_unfold.
  set (req := searchRequest syncOpts (w_url w)).
  destruct (error_world (fetchSearch req) (addTrace w [EvFetch req]))
    as (evs & Hw & _ & Hret).
  destruct (errorFromGitHubResponse (fetchSearch req) (addTrace w [EvFetch req]))
    as [[[e|]|c|e] w1] eqn:E; simpl in *; try discriminate.
  - intros H; inversion H; subst. rewrite (Hret _ eq_refl), addTrace_nil.
    reflexivity.
  - rewrite (Hret _ eq_refl), addTrace_nil in Hw. subst w1.
    destruct (json (fetchSearch req)); intros H; inversion H; reflexivity.
Qed.

Lemma keysFrom_succ (k n : nat) :
  keysFrom k (S n) = keyOfUUID (randomUUID k) :: keysFrom (S k) n.
Proof. reflexivity. Qed.

Lemma keysFrom_length (k n : nat) : length (keysFrom k n) = n.
Proof. unfold keysFrom. now rewrite length_map, length_seq. Qed.

(** The first loop pushes, for the item at each position, the key drawn at
    that position and the fragment built from that key and that item. *)
Lemma buildQuery_spec (items : list SearchItem) (qKeys qParts : list string)
  (w : world) :
  buildQuery items qKeys qParts w =
    (Ret (qKeys ++ keysFrom (w_uuids w) (length items),
          qParts ++ partsFor (keysFrom (w_uuids w) (length items)) items),
     advance w (length items)).
Proof.
  revert qKeys qParts w.
  induction items as [|item rest IH]; intros qKeys qParts w.
  - simpl. unfold ret, advance. rewrite !app_nil_r, Nat.add_0_r.
    destruct w; reflexivity.
  - cbn [buildQuery length]. unfold bind, drawUUID. rewrite IH.
    cbn [w_uuids w_url w_trace]. rewrite keysFrom_succ.
    unfold partsFor; cbn [combine map fst snd]. rewrite <- !app_assoc.
    unfold advance; cbn [w_uuids w_url w_trace app].
    now rewrite Nat.add_succ_r.
Qed.

(** The second loop reads the contents under the keys, in their order, and
    touches nothing. *)
Lemma readContents_spec (json : jsval) (qKeys : list string)
  (objectContents : list jsval) (w : world) :
  readContents json qKeys objectContents w =
    (match extractAll json qKeys with
     | inl cs => Ret (objectContents ++ cs)
     | inr e => Throw e
     end, w).
Proof.
  revert objectContents.
  induction qKeys as [|key rest IH]; intros objectContents; simpl.
  - now rewrite app_nil_r.
  - unfold bind, liftJs. destruct (extractText json key) as [c|e]; simpl;
      [|reflexivity].
    rewrite IH. destruct (extractAll json rest) as [cs|e]; [|reflexivity].
    now rewrite <- app_assoc.
Qed.

(** [retrieveObjectContents] is the batch request, its classification, the
    parsed body and the contents read under the generated keys. *)
Lemma retrieveObjectContents_unfold (ghToken : string) (items : list SearchItem)
  (w : world) :
  let req := contentRequest ghToken items w in
  let w1 := addTrace (advance w (length items)) [EvFetch req] in
  retrieveObjectContents ghToken items w =
    match errorFromGitHubResponse (fetchGraphql req) w1 with
    | (Ret (Some e), w') => (Ret (inr e), w')
    | (Ret None, w') =>
        match json (fetchGraphql req) with
        | Some j =>
            match extractAll j (keysFrom (w_uuids w) (length items)) with
            | inl cs => (Ret (inl cs), w')
            | inr e => (Throw e, w')
            end
        | None => (Throw SyntaxError, w')
        end
    | (Exit c, w') => (Exit c, w')
    | (Throw e, w') => (Throw e, w')
    end.
Proof.
  intros req w1. unfold retrieveObjectContents, bind at 1.
  rewrite buildQuery_spec. cbn [fst snd app].
  unfold bind at 1, emit. fold (contentRequest ghToken items w). fold req. fold w1.
  unfold bind at 1.
  destruct (errorFromGitHubResponse (fetchGraphql req) w1)
    as [[[e|]|c|e] w']; try reflexivity.
  unfold bind, responseJson.
  destruct (json (fetchGraphql req)) as [j|]; [|reflexivity].
  unfold ret at 1. rewrite readContents_spec.
  destruct (extractAll j (keysFrom (w_uuids w) (length items))); reflexivity.
Qed.

End Steps.

(** ** The writer *)

Section Writer.

Context {rt : Runtime}.

Lemma writesFor_nil_r (outdir : string) (items : list SearchItem) :
  writesFor outdir items [] = [].
Proof. unfold writesFor. now rewrite combine_nil. Qed.

Lemma skipn_cons_nth_error {A : Type} (l : list A) (k : nat) (x : A) :
  nth_error l k = Some x -> skipn k l = x :: skipn (S k) l.
Proof.
  revert k; induction l as [|y l IH]; intros [|k] H; try discriminate.
  - now inversion H.
  - simpl in H. apply IH in H. exact H.
Qed.

Lemma skipn_past {A : Type} (l : list A) (k : nat) :
  nth_error l k = None -> skipn k l = [] /\ skipn (S k) l = [].
Proof.
  intros H. apply nth_error_None in H.
  split; apply skipn_all2; lia.
Qed.

(** The loop from index [k] on issues the writes of the items and contents
    from position [k] on. *)
Lemma forEachIndex_writes (outdir : string) (items : list SearchItem)
  (contents : list jsval) (n k : nat) (w : world) :
  k + n = length items ->
  forEachIndex (seq k n) (syncToOutdirStep outdir items contents) w =
    (Ret tt, addTrace w (writesFor outdir (skipn k items) (skipn k contents))).
Proof.
  revert k w. induction n as [|n IH]; intros k w Hlen.
  - simpl. unfold ret. rewrite skipn_all2 by lia.
    unfold writesFor; simpl. now rewrite addTrace_nil.
  - cbn [seq forEachIndex]. unfold bind, syncToOutdirStep at 1.
    destruct (nth_error items k) as [item|] eqn:Hitem.
    2:{ apply nth_error_None in Hitem. lia. }
    rewrite (skipn_cons_nth_error _ _ _ Hitem).
    destruct (nth_error contents k) as [c|] eqn:Hc.
    + rewrite (nth_error_nth _ _ VUndefined Hc).
      rewrite (skipn_cons_nth_error _ _ _ Hc).
      unfold writesFor; cbn [combine flat_map fst snd]. fold (writesFor outdir).
      destruct (truthy c); cbn [negb].
      * unfold emit. rewrite IH by lia. now rewrite addTrace_app.
      * unfold ret. rewrite IH by lia. reflexivity.
    + rewrite (nth_overflow _ _ (proj1 (nth_error_None _ _) Hc)).
      destruct (skipn_past _ _ Hc) as [E1 E2]. rewrite E1.
      cbn [truthy negb]. unfold ret. rewrite IH by lia.
      rewrite E2, !writesFor_nil_r. reflexivity.
Qed.

(** [syncToOutdir] makes the directory, then issues one write per item
    whose content is truthy, in the order of the items. *)
Lemma syncToOutdir_spec (outdir : string) (items : list SearchItem)
  (contents : list jsval) (w : world) :
  syncToOutdir outdir items contents w =
    (Ret tt, addTrace w (EvMkdir outdir :: writesFor outdir items contents)).
Proof.
  unfold syncToOutdir, bind, emit.
  rewrite forEachIndex_writes by reflexivity.
  rewrite addTrace_app. reflexivity.
Qed.

Lemma writesFor_typed (outdir : string) (items : list SearchItem)
  (contents : list (option string)) :
  writesFor outdir items (map ofNullable contents) =
    nonEmptyWrites outdir items contents.
Proof.
  unfold writesFor, nonEmptyWrites.
  revert contents. induction items as [|item items IH]; intros [|c contents];
    simpl; try reflexivity.
  rewrite IH. destruct c as [c|]; simpl; [|reflexivity].
  destruct (c =? ""); reflexivity.
Qed.

(** Every write carries a truthy content: never null, never the empty
    string. *)
Lemma writesFor_truthy (outdir : string) (items : list SearchItem)
  (contents : list jsval) :
  Forall (fun ev => exists file data,
              ev = EvWriteFile file data /\ truthy data = true)
    (writesFor outdir items contents).
Proof.
  unfold writesFor.
  revert contents. induction items as [|item items IH]; intros [|c contents];
    simpl; try constructor.
  destruct (truthy c) eqn:E; simpl.
  - constructor; [eauto | apply IH].
  - apply IH.
Qed.

Lemma replaceAll_length (c r : ascii) (s : string) :
  String.length (replaceAll c (String r EmptyString) s) = String.length s.
Proof.
  induction s as [|a s IH]; simpl; [reflexivity|].
  destruct (Ascii.eqb a c); simpl; now rewrite IH.
Qed.

(** Replacing [c] by [r] changes the characters equal to [c], each into
    [r], and no other. *)
Lemma replaceAll_get (c r : ascii) (s : string) (i : nat) :
  String.get i (replaceAll c (String r EmptyString) s) =
    option_map (fun a => if Ascii.eqb a c then r else a) (String.get i s).
Proof.
  revert i. induction s as [|a s IH]; intros i; simpl; [reflexivity|].
  destruct (Ascii.eqb a c) eqn:E; destruct i as [|i]; simpl;
    try rewrite E; try reflexivity; apply IH.
Qed.

End Writer.

(** ** Frames: what a step may change *)

Section Frames.

Context {rt : Runtime}.

Lemma extends_refl (w : world) : extends w w.
Proof. split; [reflexivity | exists []; now rewrite app_nil_r]. Qed.

Lemma extends_trans (w1 w2 w3 : world) :
  extends w1 w2 -> extends w2 w3 -> extends w1 w3.
Proof.
  intros [U1 [e1 T1]] [U2 [e2 T2]]. split; [congruence|].
  exists (e1 ++ e2). now rewrite T2, T1, app_assoc.
Qed.

Lemma extends_addTrace (w : world) (evs : list event) : extends w (addTrace w evs).
Proof. split; [reflexivity | now exists evs]. Qed.

Lemma extends_advance (w : world) (n : nat) : extends w (advance w n).
Proof. split; [reflexivity | exists []; simpl; now rewrite app_nil_r]. Qed.

Lemma error_extends {B : Type} (response : Response B) (w : world) :
  extends w (snd (errorFromGitHubResponse response w)).
Proof.
  destruct (error_world response w) as (evs & Hw & _). rewrite Hw.
  apply extends_addTrace.
Qed.

Lemma retrieveObjectContents_extends (ghToken : string) (items : list SearchItem)
  (w : world) :
  extends w (snd (retrieveObjectContents ghToken items w)).
Proof.
  rewrite retrieveObjectContents_unfold.
  set (req := contentRequest ghToken items w).
  set (w1 := addTrace (advance w (length items)) [EvFetch req]).
  assert (H1 : extends w w1).
  { eapply extends_trans; [apply extends_advance | apply extends_addTrace]. }
  pose proof (error_extends (fetchGraphql req) w1) as H2.
  apply (extends_trans _ _ _ H1).
  destruct (errorFromGitHubResponse (fetchGraphql req) w1)
    as [[[e|]|c|e] w']; simpl in *; try assumption.
  destruct (json (fetchGraphql req)) as [j|]; [|assumption].
  destruct (extractAll j (keysFrom (w_uuids w) (length items))); assumption.
Qed.

(** A batch fetch that returns, returns after exactly one call: the batch
    request. *)
Lemma retrieveObjectContents_ret_world (ghToken : string)
  (items : list SearchItem) (w w' : world) (r : list jsval + SyncSearchPageError) :
  retrieveObjectContents ghToken items w = (Ret r, w') ->
  w' = addTrace (advance w (length items))
         [EvFetch (contentRequest ghToken items w)].
Proof.
  rewrite retrieveObjectContents_unfold.
  set (req := contentRequest ghToken items w).
  set (w1 := addTrace (advance w (length items)) [EvFetch req]).
  destruct (error_world (fetchGraphql req) w1) as (evs & Hw & _ & Hret).
  destruct (errorFromGitHubResponse (fetchGraphql req) w1)
    as [[[e|]|c|e] w2] eqn:E; simpl in *; try discriminate;
    rewrite (Hret _ eq_refl), addTrace_nil in Hw; subst w2.
  - intros H; now inversion H.
  - destruct (json (fetchGraphql req)) as [j|]; [|discriminate].
    destruct (extractAll j (keysFrom (w_uuids w) (length items)));
      intros H; now inversion H.
Qed.

(** From the search request on, [syncSearchPage] only adds calls. *)
Lemma syncSearchPage_extends (syncOpts : SyncSearchPageOpts) (w : world) :
  let w0 := afterPage syncOpts w in
  extends (addTrace w0 [EvFetch (searchRequest syncOpts (w_url w0))])
          (snd (syncSearchPage syncOpts w)).
Proof.
  intros w0. unfold syncSearchPage, bind at 1. rewrite applyPage_ret. fold w0.
  unfold bind at 1. rewrite codeSearch_unfold.
  set (req := searchRequest syncOpts (w_url w0)).
  pose proof (error_extends (fetchSearch req) (addTrace w0 [EvFetch req])) as H.
  destruct (errorFromGitHubResponse (fetchSearch req) (addTrace w0 [EvFetch req]))
    as [[[e|]|c|e] w1]; simpl in H; try exact H.
  destruct (json (fetchSearch req)) as [[r|e]|]; try exact H.
  unfold bind at 1.
  pose proof (retrieveObjectContents_extends (ghToken syncOpts) (items r) w1) as H2.
  destruct (retrieveObjectContents (ghToken syncOpts) (items r) w1)
    as [[[cs|e]|c|e] w2]; simpl in H2;
    try exact (extends_trans _ _ _ H H2).
  unfold bind. rewrite syncToOutdir_spec. simpl.
  eapply extends_trans; [exact H|]. eapply extends_trans; [exact H2|].
  apply extends_addTrace.
Qed.

Lemma get_set_params (name value : string) (ps : list (string * string)) :
  lookup name (URL.set_params name value ps) = Some value.
Proof.
  induction ps as [|[n v] ps IH]; simpl.
  - now rewrite String.eqb_refl.
  - destruct (n =? name) eqn:E; simpl; rewrite E; [reflexivity | exact IH].
Qed.

Lemma Math_ceil_div_bounds (a : Z) :
  (100 * (Math_ceil_div a 100 - 1) < a <= 100 * Math_ceil_div a 100)%Z.
Proof.
  unfold Math_ceil_div.
  pose proof (Z.div_mod (- a) 100 ltac:(lia)).
  pose proof (Z.mod_pos_bound (- a) 100 ltac:(lia)).
  lia.
Qed.

End Frames.

(** * The orchestrator: [syncSearchPage] *)

(** C1. When the search step returns an error result, [syncSearchPage]
    returns exactly that error in the world the search step left: the only
    call made is the search request, no UUID was drawn, so neither the content
    fetcher nor the writer ran. When the search step returns a response and
    the content fetcher returns an error result, [syncSearchPage] returns
    exactly that error in the world the fetcher left: the only calls made are
    the two requests, so the writer did not run. *)
Theorem syncSearchPage_short_circuit {rt : Runtime}
  (syncOpts : SyncSearchPageOpts) (w : world) :
  let w0 := afterPage syncOpts w in
  let searchReq := searchRequest syncOpts (w_url w0) in
  (forall e w1,
      codeSearch syncOpts w0 = (Ret (inr e), w1) ->
      syncSearchPage syncOpts w = (Ret (Error e), w1)
      /\ w_trace w1 = w_trace w ++ [EvFetch searchReq]
      /\ w_uuids w1 = w_uuids w)
  /\ (forall r w1 e w2,
      codeSearch syncOpts w0 = (Ret (inl r), w1) ->
      retrieveObjectContents (ghToken syncOpts) (items r) w1 = (Ret (inr e), w2) ->
      syncSearchPage syncOpts w = (Ret (Error e), w2)
      /\ w_trace w2 =
           w_trace w ++ [EvFetch searchReq;
                         EvFetch (contentRequest (ghToken syncOpts) (items r) w1)]).
Proof.
  intros w0 searchReq.
  destruct (afterPage_frame syncOpts w) as [Ht Hu]. fold w0 in Ht, Hu.
  split.
  - intros e w1 Hs. repeat split.
    + unfold syncSearchPage, bind. rewrite applyPage_ret. fold w0. now rewrite Hs.
    + apply codeSearch_ret_world in Hs. subst w1. simpl. now rewrite Ht.
    + apply codeSearch_ret_world in Hs. subst w1. simpl. exact Hu.
  - intros r w1 e w2 Hs Hc. split.
    + unfold syncSearchPage, bind. rewrite applyPage_ret. fold w0.
      now rewrite Hs, Hc.
    + apply retrieveObjectContents_ret_world in Hc.
      apply codeSearch_ret_world in Hs. subst w2 w1. simpl.
      rewrite Ht, <- app_assoc. reflexivity.
Qed.

(** A successful sync reports the page counts computed from the search
    response. *)
Lemma syncSearchPage_success {rt : Runtime}
  (syncOpts : SyncSearchPageOpts) (w w' : world) (p : Pages) :
  syncSearchPage syncOpts w = (Ret (Success p), w') ->
  exists r,
    json (fetchSearch (searchRequest syncOpts (w_url (afterPage syncOpts w))))
      = Some (inl r)
    /\ total p = Math_ceil_div (total_count r) 100
    /\ remaining p = (total p - pageOr (page syncOpts) 1)%Z.
Proof.
  unfold syncSearchPage, bind at 1. rewrite applyPage_ret.
  unfold bind at 1. rewrite codeSearch_unfold.
  set (req := searchRequest syncOpts (w_url (afterPage syncOpts w))).
  destruct (errorFromGitHubResponse (fetchSearch req) _) as [[[e|]|c|e] w1];
    try discriminate.
  destruct (json (fetchSearch req)) as [[r|e]|]; try discriminate.
  unfold bind at 1.
  destruct (retrieveObjectContents (ghToken syncOpts) (items r) w1)
    as [[[cs|e]|c|e] w2]; try discriminate.
  unfold bind. rewrite syncToOutdir_spec. unfold ret.
  intros H; inversion H; subst; clear H. exists r. cbn [total remaining].
  repeat split.
Qed.

(** C3, as amended. For every successful page sync, the total page count is
    [ceil(total_count / 100)] for the [total_count] of the search response,
    that is the least number of pages of 100 that hold [total_count] results;
    the remaining page count is the total minus the page number when a
    non-zero page number is given, and the total minus 1 when no page number
    is given or the page number is 0. *)
Theorem syncSearchPage_page_counts {rt : Runtime}
  (syncOpts : SyncSearchPageOpts) (w w' : world) (p : Pages) :
  syncSearchPage syncOpts w = (Ret (Success p), w') ->
  exists r,
    json (fetchSearch (searchRequest syncOpts (w_url (afterPage syncOpts w))))
      = Some (inl r)
    /\ total p = Math_ceil_div (total_count r) 100
    /\ (100 * (total p - 1) < total_count r <= 100 * total p)%Z
    /\ (forall n, page syncOpts = Some n -> n <> 0%Z ->
                  remaining p = (total p - n)%Z)
    /\ (page syncOpts = None \/ page syncOpts = Some 0%Z ->
        remaining p = (total p - 1)%Z).
Proof.
  intros Hrun.
  destruct (syncSearchPage_success _ _ _ _ Hrun) as (r & Hj & Ht & Hr).
  exists r. split; [exact Hj|]. split; [exact Ht|].
  split; [rewrite Ht; apply Math_ceil_div_bounds|]. split.
  - intros n Hn Hz. rewrite Hr, Hn. unfold pageOr. simpl.
    apply Z.eqb_neq in Hz. now rewrite Hz.
  - intros [Hn|Hn]; rewrite Hr, Hn; reflexivity.
Qed.

(** C9, as amended. When a non-zero page number is supplied, the [page]
    parameter of the input URL is set to that number before the search
    request, which is made on the mutated URL. When no page number is
    supplied, or the page number 0, the URL is left as it is, the search
    request is made on it and page 1 is used for the remaining count. Nothing
    else in [syncSearchPage] touches the URL. *)
Theorem syncSearchPage_page_parameter {rt : Runtime}
  (syncOpts : SyncSearchPageOpts) (w : world) :
  let w' := snd (syncSearchPage syncOpts w) in
  (forall n, page syncOpts = Some n -> n <> 0%Z ->
     w_url w' = URL.set "page" (numberToString n) (w_url w)
     /\ URL.get "page" (w_url w') = Some (numberToString n)
     /\ exists rest,
          w_trace w' =
            w_trace w
            ++ EvFetch (searchRequest syncOpts
                          (URL.set "page" (numberToString n) (w_url w))) :: rest)
  /\ (page syncOpts = None \/ page syncOpts = Some 0%Z ->
      w_url w' = w_url w
      /\ (exists rest,
             w_trace w' = w_trace w ++ EvFetch (searchRequest syncOpts (w_url w)) :: rest)
      /\ forall p, fst (syncSearchPage syncOpts w) = Ret (Success p) ->
                   remaining p = (total p - 1)%Z).
Proof.
  intros w'.
  destruct (syncSearchPage_extends syncOpts w) as [Hu [evs Ht]].
  fold w' in Hu, Ht. simpl in Hu, Ht.
  split.
  - intros n Hn Hz.
    assert (E : afterPage syncOpts w =
                {| w_url := URL.set "page" (numberToString n) (w_url w);
                   w_uuids := w_uuids w; w_trace := w_trace w |}).
    { unfold afterPage, applyPage. rewrite Hn. simpl.
      apply Z.eqb_neq in Hz. now rewrite Hz. }
    rewrite E in Hu, Ht. simpl in Hu, Ht. repeat split.
    + exact Hu.
    + rewrite Hu. apply get_set_params.
    + exists evs. rewrite Ht, <- app_assoc. reflexivity.
  - intros Hn.
    assert (E : afterPage syncOpts w = w).
    { unfold afterPage, applyPage. destruct Hn as [Hn|Hn]; rewrite Hn; reflexivity. }
    rewrite E in Hu, Ht. repeat split.
    + exact Hu.
    + exists evs. rewrite Ht, <- app_assoc. reflexivity.
    + intros p Hp.
      destruct (syncSearchPage syncOpts w) as [res w2] eqn:Hrun. simpl in Hp.
      subst res.
      destruct (syncSearchPage_success _ _ _ _ Hrun) as (r & _ & _ & Hr).
      rewrite Hr. destruct Hn as [Hn|Hn]; rewrite Hn; reflexivity.
Qed.

(** * The search client and the classification of responses *)

(** C4, as amended. For every response whose content type is JSON: status
    401 is the [unauthorized] error; status 403 is the [rate-limited] error,
    whose reset is the date at [parseInt(header, 10) * 1000] milliseconds when
    the [x-ratelimit-reset] header is present and not empty, and null when the
    header is absent or empty; any other status is no error, and the search
    client then returns the parsed body. *)
Theorem errorFromGitHubResponse_classifies {rt : Runtime} {B : Type}
  (response : Response B) (w : world) :
  isJsonContentType (headers response) = true ->
  (status response = 401%Z ->
   errorFromGitHubResponse response w = (Ret (Some Unauthorized), w))
  /\ (status response = 403%Z ->
      forall s, Headers_get "x-ratelimit-reset" (headers response) = Some s ->
                s <> "" ->
      errorFromGitHubResponse response w =
        (Ret (Some (RateLimited (Some (newDate (times (parseInt10 s) 1000))))), w))
  /\ (status response = 403%Z ->
      Headers_get "x-ratelimit-reset" (headers response) = None
      \/ Headers_get "x-ratelimit-reset" (headers response) = Some "" ->
      errorFromGitHubResponse response w = (Ret (Some (RateLimited None)), w))
  /\ (status response <> 401%Z -> status response <> 403%Z ->
      errorFromGitHubResponse response w = (Ret None, w))
  /\ (forall syncOpts,
        let req := searchRequest syncOpts (w_url w) in
        isJsonContentType (headers (fetchSearch req)) = true ->
        status (fetchSearch req) <> 401%Z -> status (fetchSearch req) <> 403%Z ->
        codeSearch syncOpts w =
          (match json (fetchSearch req) with
           | Some body => Ret body
           | None => Throw SyntaxError
           end, addTrace w [EvFetch req])).
Proof.
  intros Hj. split; [|split; [|split; [|split]]].
  - now apply error_401.
  - intros Hs s Hh Hne. rewrite error_403, Hh by assumption.
    apply String.eqb_neq in Hne. now rewrite Hne.
  - intros Hs Hh. rewrite error_403 by assumption.
    destruct Hh as [Hh|Hh]; rewrite Hh; reflexivity.
  - now apply error_other.
  - intros syncOpts req Hj' H1 H3. rewrite codeSearch_unfold. fold req.
    rewrite error_other by assumption.
    destruct (json (fetchSearch req)); reflexivity.
Qed.

(** C8. A response whose content type is absent or does not start with
    [application/json] ends the process with exit code 1, after one
    [console.log]: from [errorFromGitHubResponse], hence from the search
    client, from the content fetcher and from [syncSearchPage] for either of
    its two requests. The error results are [unauthorized] and
    [rate-limited], and none stands for this condition. *)
Theorem non_json_response_is_fatal {rt : Runtime} :
  (forall (B : Type) (response : Response B) (w : world),
      isJsonContentType (headers response) = false ->
      errorFromGitHubResponse response w = (Exit 1, addTrace w [fatalLog response]))
  /\ (forall syncOpts w,
      isJsonContentType (headers (fetchSearch (searchRequest syncOpts (w_url w))))
        = false ->
      fst (codeSearch syncOpts w) = Exit 1)
  /\ (forall ghToken items w,
      isJsonContentType (headers (fetchGraphql (contentRequest ghToken items w)))
        = false ->
      fst (retrieveObjectContents ghToken items w) = Exit 1)
  /\ (forall syncOpts w,
      isJsonContentType
        (headers (fetchSearch (searchRequest syncOpts (w_url (afterPage syncOpts w)))))
        = false ->
      fst (syncSearchPage syncOpts w) = Exit 1)
  /\ (forall syncOpts w r w1,
      codeSearch syncOpts (afterPage syncOpts w) = (Ret (inl r), w1) ->
      isJsonContentType
        (headers (fetchGraphql (contentRequest (ghToken syncOpts) (items r) w1)))
        = false ->
      fst (syncSearchPage syncOpts w) = Exit 1)
  /\ (forall e : SyncSearchPageError,
      e = Unauthorized \/ exists reset, e = RateLimited reset).
Proof.
  assert (Hs : forall syncOpts w,
             isJsonContentType (headers (fetchSearch (searchRequest syncOpts (w_url w))))
             = false -> fst (codeSearch syncOpts w) = Exit 1).
  { intros syncOpts w H. rewrite codeSearch_unfold, error_not_json by exact H.
    reflexivity. }
  assert (Hc : forall ghToken items w,
             isJsonContentType (headers (fetchGraphql (contentRequest ghToken items w)))
             = false -> fst (retrieveObjectContents ghToken items w) = Exit 1).
  { intros ghToken items w H.
    rewrite retrieveObjectContents_unfold, error_not_json by exact H.
    reflexivity. }
  repeat apply conj.
  - intros B response w H. now apply error_not_json.
  - exact Hs.
  - exact Hc.
  - intros syncOpts w H. apply Hs in H.
    unfold syncSearchPage, bind. rewrite applyPage_ret.
    destruct (codeSearch syncOpts (afterPage syncOpts w)) as [[x|c|e] w1];
      simpl in H; try discriminate.
    simpl. now inversion H.
  - intros syncOpts w r w1 Hr H. apply Hc in H.
    unfold syncSearchPage, bind. rewrite applyPage_ret, Hr.
    destruct (retrieveObjectContents (ghToken syncOpts) (items r) w1)
      as [[x|c|e] w2]; simpl in H; try discriminate.
    simpl. now inversion H.
  - intros [|reset]; [left; reflexivity | right; now exists reset].
Qed.

(** * The content batch fetcher and the writer *)

Section Correlation.

Context {rt : Runtime}.

Lemma keysFrom_nth (k n i : nat) :
  i < n ->
  nth_error (keysFrom k n) i = Some (keyOfUUID (randomUUID (k + i))).
Proof.
  revert k i. induction n as [|n IH]; intros k i Hi; [lia|].
  rewrite keysFrom_succ. destruct i as [|i]; simpl.
  - now rewrite Nat.add_0_r.
  - rewrite IH by lia. now rewrite Nat.add_succ_r.
Qed.

Lemma partsFor_nth (keys : list string) (items : list SearchItem) (i : nat)
  (key : string) (item : SearchItem) :
  nth_error keys i = Some key ->
  nth_error items i = Some item ->
  nth_error (partsFor keys items) i = Some (fragmentFor key item).
Proof.
  unfold partsFor. revert items i.
  induction keys as [|k keys IH]; intros [|it items] [|i] Hk Hi;
    simpl in *; try discriminate.
  - now inversion Hk; inversion Hi.
  - now apply IH.
Qed.

Lemma partsFor_length (keys : list string) (items : list SearchItem) :
  length keys = length items ->
  length (partsFor keys items) = length items.
Proof.
  intros H. unfold partsFor. rewrite length_map, length_combine. lia.
Qed.

(** The contents come out in the order of the keys, one per key. *)
Lemma extractAll_nth (json : jsval) (keys : list string) (cs : list jsval) :
  extractAll json keys = inl cs ->
  length cs = length keys
  /\ forall i key,
      nth_error keys i = Some key ->
      exists text,
        aliasedText json key = inl text
        /\ nth_error cs i = Some (if truthy text then text else VNull).
Proof.
  revert cs. induction keys as [|k keys IH]; intros cs H; simpl in H.
  - inversion H; subst. split; [reflexivity|].
    intros [|i] key Hk; discriminate.
  - unfold extractText in H.
    destruct (aliasedText json k) as [text|e] eqn:Et; [|discriminate].
    destruct (extractAll json keys) as [cs'|e]; [|discriminate].
    inversion H; subst; clear H.
    destruct (IH cs' eq_refl) as [Hl Hn]. split; [simpl; now rewrite Hl|].
    intros [|i] key Hk; simpl in Hk.
    + inversion Hk; subst. exists text. split; [exact Et | reflexivity].
    + exact (Hn i key Hk).
Qed.

Lemma retrieveObjectContents_success (ghToken : string)
  (items : list SearchItem) (w w' : world) (cs : list jsval) :
  retrieveObjectContents ghToken items w = (Ret (inl cs), w') ->
  exists j,
    json (fetchGraphql (contentRequest ghToken items w)) = Some j
    /\ extractAll j (keysFrom (w_uuids w) (length items)) = inl cs.
Proof.
  rewrite retrieveObjectContents_unfold.
  destruct (errorFromGitHubResponse _ _) as [[[e|]|c|e] w1]; try discriminate.
  destruct (json (fetchGraphql (contentRequest ghToken items w))) as [j|];
    [|discriminate].
  destruct (extractAll j (keysFrom (w_uuids w) (length items))) as [cs'|e] eqn:E;
    [|discriminate].
  intros H; inversion H; subst. exists j. split; [reflexivity | exact E].
Qed.

End Correlation.

Section WrittenOut.

Context {rt : Runtime}.

(** The fragments the first loop builds are the written-out ones. *)
Lemma partsFor_written (keys : list string) (items : list SearchItem) :
  partsFor keys items = aliasedFragments keys items.
Proof. reflexivity. Qed.

(** The batch request of the program is the written-out POST. *)
Lemma contentRequest_written (ghToken : string) (items : list SearchItem)
  (w : world) :
  contentRequest ghToken items w
  = batchRequest ghToken
      (batchQuery
         (aliasedFragments (keysFrom (w_uuids w) (length items)) items)).
Proof. reflexivity. Qed.

(** What the program reads under a key, when it reads something, is the text
    the answer holds for that key. *)
Lemma aliasedText_answer (j : jsval) (key : string) (text : jsval) :
  aliasedText j key = inl text -> text = answerText j key.
Proof.
  unfold aliasedText, answerText.
  destruct j as [| | | | | |members]; simpl; try discriminate.
  destruct (lookup "data" members) as [data|]; simpl; [|discriminate].
  destruct data as [| | | | | |results]; simpl; try discriminate.
  destruct (lookup key results) as [repo|]; simpl; [|discriminate].
  destruct repo as [| | | | | |repo]; simpl; try discriminate;
    try (intros H; inversion H; reflexivity).
  destruct (lookup "object" repo) as [obj|]; simpl;
    [|intros H; inversion H; reflexivity].
  destruct obj as [| | | | | |blob]; simpl; intros H; inversion H; reflexivity.
Qed.

End WrittenOut.

(** C6, as amended. When the content fetcher succeeds, the content list has
    the length of the item list; the one request made is the POST of the
    composite query that holds, at each position, the sub-query for the item
    of that position under the key generated at that position; and the
    content at each position is the text the answer holds under the key of
    that position when that text is a non-empty string, and null when the
    answer holds no text there, a null text or the empty string. *)
Theorem retrieveObjectContents_positional {rt : Runtime}
  (ghToken : string) (items : list SearchItem) (w w' : world) (cs : list jsval) :
  retrieveObjectContents ghToken items w = (Ret (inl cs), w') ->
  let keys := keysFrom (w_uuids w) (length items) in
  let fragments := aliasedFragments keys items in
  let req := batchRequest ghToken (batchQuery fragments) in
  length cs = length items
  /\ length keys = length items
  /\ length fragments = length items
  /\ w' = addTrace (advance w (length items)) [EvFetch req]
  /\ (forall i item,
        nth_error items i = Some item ->
        nth_error keys i = Some (keyOfUUID (randomUUID (w_uuids w + i)))
        /\ nth_error fragments i =
             Some (aliasedFragment (keyOfUUID (randomUUID (w_uuids w + i))) item))
  /\ exists answer,
       json (fetchGraphql req) = Some answer
       /\ forall i key,
           nth_error keys i = Some key ->
           (forall s, answerText answer key = VStr s -> s <> "" ->
                      nth_error cs i = Some (VStr s))
           /\ (answerText answer key = VUndefined
               \/ answerText answer key = VNull
               \/ answerText answer key = VStr "" ->
               nth_error cs i = Some VNull)
           /\ nth_error cs i
              = Some (if truthy (answerText answer key)
                      then answerText answer key else VNull).
Proof.
  intros Hrun keys fragments req.
  destruct (retrieveObjectContents_success _ _ _ _ _ Hrun) as (j & Hj & Hall).
  destruct (extractAll_nth _ _ _ Hall) as [Hlen Hnth].
  pose proof (keysFrom_length (w_uuids w) (length items)) as Hk. fold keys in Hk.
  rewrite contentRequest_written in Hj. fold keys fragments req in Hj.
  split; [now rewrite Hlen|]. split; [exact Hk|].
  split; [apply (partsFor_length keys items Hk)|].
  split.
  { rewrite (retrieveObjectContents_ret_world _ _ _ _ _ Hrun).
    now rewrite contentRequest_written. }
  split.
  - intros i item Hi.
    assert (Hlt : i < length items) by (apply nth_error_Some; congruence).
    pose proof (keysFrom_nth (w_uuids w) _ _ Hlt) as Hkey. fold keys in Hkey.
    split; [exact Hkey|]. apply (partsFor_nth keys items i _ item Hkey Hi).
  - exists j. split; [exact Hj|]. intros i key Hkey.
    destruct (Hnth i key Hkey) as (text & Ht & Hc).
    apply aliasedText_answer in Ht. subst text.
    split; [|split; [|exact Hc]].
    + intros s Hs Hne. rewrite Hc, Hs. simpl.
      apply String.eqb_neq in Hne. now rewrite Hne.
    + intros [H|[H|H]]; rewrite Hc, H; reflexivity.
Qed.

(** C7. For an empty item list the content fetcher still issues its request,
    whose query has no fragment between the braces; whenever it returns a
    content list, that list is empty, and it does so for every JSON answer
    that is not a 401 or a 403 and whose body parses. *)
Theorem retrieveObjectContents_empty {rt : Runtime} (ghToken : string) (w : world) :
  let req := graphqlRequest ghToken (queryDocument []) in
  queryDocument [] = ("query {" ++ nl ++ nl ++ "}")%string
  /\ (exists evs,
        snd (retrieveObjectContents ghToken [] w) = addTrace w (EvFetch req :: evs))
  /\ (forall cs w',
        retrieveObjectContents ghToken [] w = (Ret (inl cs), w') -> cs = [])
  /\ (isJsonContentType (headers (fetchGraphql req)) = true ->
      status (fetchGraphql req) <> 401%Z ->
      status (fetchGraphql req) <> 403%Z ->
      json (fetchGraphql req) <> None ->
      retrieveObjectContents ghToken [] w = (Ret (inl []), addTrace w [EvFetch req])).
Proof.
  intros req.
  assert (Hw : advance w 0 = w).
  { unfold advance. rewrite Nat.add_0_r. now destruct w. }
  assert (Hreq : contentRequest ghToken [] w = req) by reflexivity.
  split; [reflexivity|]. split; [|split].
  - rewrite retrieveObjectContents_unfold. rewrite Hreq. cbn [length]. rewrite Hw.
    destruct (error_world (fetchGraphql req) (addTrace w [EvFetch req]))
      as (evs & He & _).
    exists evs. rewrite addTrace_app in He. simpl in He.
    destruct (errorFromGitHubResponse (fetchGraphql req) (addTrace w [EvFetch req]))
      as [[[e|]|c|e] w1]; simpl in *; try exact He.
    destruct (json (fetchGraphql req)); exact He.
  - intros cs w' Hrun.
    destruct (retrieveObjectContents_success _ _ _ _ _ Hrun) as (j & _ & Hall).
    simpl in Hall. now inversion Hall.
  - intros Hj H1 H3 Hb.
    rewrite retrieveObjectContents_unfold. rewrite Hreq. cbn [length]. rewrite Hw.
    rewrite error_other by assumption.
    destruct (json (fetchGraphql req)) as [j|]; [reflexivity | congruence].
Qed.

(** C5, as amended. For every item list and content list, the writer makes
    the output directory and then issues, in the order of the items, one
    write per item whose content is neither null nor the empty string: the
    content itself, to the file [{owner}_{repoName}_{path}] of the output
    directory, where every slash of the path has become an underscore and no
    other character has changed. It writes nothing for the other items. In
    particular, for owner [o], repo [r], path [a/b/c.sql] and a non-empty
    content [X], the one write is [X] to [o_r_a_b_c.sql]. *)
Theorem syncToOutdir_writes {rt : Runtime}
  (outdir : string) (items : list SearchItem) (contents : list (option string))
  (w : world) :
  syncToOutdir outdir items (map ofNullable contents) w =
    (Ret tt, addTrace w (EvMkdir outdir :: nonEmptyWrites outdir items contents))
  /\ (forall item,
        filenameOf item =
          (login (owner (repository item)) ++ "_" ++ repo_name (repository item)
           ++ "_" ++ replaceAll "/" "_" (path item))%string
        /\ String.length (replaceAll "/" "_" (path item)) = String.length (path item)
        /\ forall i,
            String.get i (replaceAll "/" "_" (path item)) =
              option_map (fun a => if Ascii.eqb a "/" then "_"%char else a)
                (String.get i (path item)))
  /\ (forall X nm fk,
        X <> "" ->
        syncToOutdir outdir
          [{| item_name := nm; path := "a/b/c.sql";
              repository := {| repo_name := "r"; fork := fk;
                               owner := {| login := "o" |} |} |}]
          (map ofNullable [Some X]) w =
          (Ret tt,
           addTrace w [EvMkdir outdir;
                       EvWriteFile (path_join outdir "o_r_a_b_c.sql") (VStr X)])).
Proof.
  split; [|split].
  - rewrite syncToOutdir_spec, writesFor_typed. reflexivity.
  - intros item. split; [reflexivity|]. split.
    + apply replaceAll_length.
    + intros i. apply replaceAll_get.
  - intros X nm fk HX. rewrite syncToOutdir_spec, writesFor_typed.
    unfold nonEmptyWrites. simpl. apply String.eqb_neq in HX. now rewrite HX.
Qed.

(** C10. When the content fetcher succeeds and the answer holds the empty
    string as the text under the key of some position, the content at that
    position is null, the writer's turn for that position does nothing, and
    no write of the writer carries a null or empty content. *)
Theorem empty_text_is_never_written {rt : Runtime}
  (ghToken : string) (items : list SearchItem) (w w' : world) (cs : list jsval)
  (j : jsval) (i : nat) (key : string) :
  retrieveObjectContents ghToken items w = (Ret (inl cs), w') ->
  json (fetchGraphql (contentRequest ghToken items w)) = Some j ->
  nth_error (keysFrom (w_uuids w) (length items)) i = Some key ->
  aliasedText j key = inl (VStr "") ->
  nth_error cs i = Some VNull
  /\ (forall outdir w2, syncToOutdirStep outdir items cs i w2 = (Ret tt, w2))
  /\ (forall outdir w2,
        syncToOutdir outdir items cs w2 =
          (Ret tt, addTrace w2 (EvMkdir outdir :: writesFor outdir items cs))
        /\ Forall (fun ev => exists file data,
                       ev = EvWriteFile file data /\ truthy data = true)
             (writesFor outdir items cs)).
Proof.
  intros Hrun Hj Hkey Htext.
  destruct (retrieveObjectContents_success _ _ _ _ _ Hrun) as (j' & Hj' & Hall).
  rewrite Hj in Hj'. inversion Hj'; subst j'; clear Hj'.
  destruct (extractAll_nth _ _ _ Hall) as [_ Hnth].
  destruct (Hnth i key Hkey) as (text & Ht & Hc).
  rewrite Htext in Ht. inversion Ht; subst text; clear Ht. simpl in Hc.
  split; [exact Hc|]. split.
  - intros outdir w2. unfold syncToOutdirStep.
    rewrite (nth_error_nth _ _ VUndefined Hc). reflexivity.
  - intros outdir w2. split; [apply syncToOutdir_spec | apply writesFor_truthy].
Qed.

(** * The properties on the test doubles *)

(** C1 on two runs: a search answered 401, and a batch request answered 403
    after a search that matched two items. *)
Lemma syncSearchPage_short_circuit_witness :
  (syncSearchPage (rt := Doubles.rtUnauthorized) (Doubles.opts None) Doubles.world0
   = (Ret (Error Unauthorized),
      snd (codeSearch (rt := Doubles.rtUnauthorized) (Doubles.opts None)
             Doubles.world0)))
  /\ fst (syncSearchPage (rt := Doubles.rtBatchLimited) (Doubles.opts None)
            Doubles.world0)
     = Ret (Error (RateLimited (Some (ValidDate 1700000000000)))).
Proof.
  split.
  - apply (proj1 (syncSearchPage_short_circuit (rt := Doubles.rtUnauthorized)
                    (Doubles.opts None) Doubles.world0) Unauthorized).
    reflexivity.
  - pose proof
      (proj2 (syncSearchPage_short_circuit (rt := Doubles.rtBatchLimited)
                (Doubles.opts None) Doubles.world0)
         (Doubles.found 250 [Doubles.item1; Doubles.item2])
         (snd (codeSearch (rt := Doubles.rtBatchLimited) (Doubles.opts None)
                 Doubles.world0))
         (RateLimited (Some (ValidDate 1700000000000)))
         (snd (syncSearchPage (rt := Doubles.rtBatchLimited) (Doubles.opts None)
                 Doubles.world0))
         eq_refl eq_refl) as [H _].
    rewrite H. reflexivity.
Defined.

(** C3 on page 2 of 250 results: three pages, one remaining. *)
Lemma syncSearchPage_page_counts_witness :
  exists r,
    json (fetchSearch (Runtime := Doubles.rtOk)
            (searchRequest (rt := Doubles.rtOk) (Doubles.opts (Some 2%Z))
               (w_url (afterPage (Doubles.opts (Some 2%Z))
                         Doubles.world0))))
      = Some (inl r)
    /\ 3%Z = Math_ceil_div (total_count r) 100
    /\ (100 * (3 - 1) < total_count r <= 100 * 3)%Z
    /\ (forall n, Some 2%Z = Some n -> n <> 0%Z -> 1%Z = (3 - n)%Z)
    /\ (Some 2%Z = None \/ Some 2%Z = Some 0%Z -> 1%Z = (3 - 1)%Z).
Proof.
  exact (syncSearchPage_page_counts (rt := Doubles.rtOk) (Doubles.opts (Some 2%Z))
           Doubles.world0
           (snd (syncSearchPage (rt := Doubles.rtOk) (Doubles.opts (Some 2%Z))
                   Doubles.world0))
           {| remaining := 1; total := 3 |} eq_refl).
Defined.

(** C9 on page 2: the URL of the request and of the caller has [page=2]. *)
Lemma syncSearchPage_page_parameter_witness :
  URL.get "page"
    (w_url (snd (syncSearchPage (rt := Doubles.rtOk) (Doubles.opts (Some 2%Z))
                   Doubles.world0)))
  = Some "2".
Proof.
  refine (proj1 (proj2 (proj1 (syncSearchPage_page_parameter (rt := Doubles.rtOk)
                                 (Doubles.opts (Some 2%Z)) Doubles.world0)
                          2%Z eq_refl _))).
  discriminate.
Defined.

(** C4 on the scenario of the specification: a 403 whose reset header is
    1700000000 seconds, that is 2023-11-14T22:13:20Z. *)
Lemma errorFromGitHubResponse_classifies_witness :
  errorFromGitHubResponse
    (Doubles.resp (B := jsval) 403 (Doubles.limitedHeaders "1700000000") None)
    Doubles.world0
  = (Ret (Some (RateLimited (Some (ValidDate 1700000000000)))), Doubles.world0).
Proof.
  refine (proj1 (proj2 (errorFromGitHubResponse_classifies (rt := Doubles.rtOk)
                          (Doubles.resp (B := jsval) 403
                             (Doubles.limitedHeaders "1700000000") None)
                          Doubles.world0 eq_refl))
            eq_refl "1700000000" eq_refl _).
  discriminate.
Defined.

(** C8 on two runs: an HTML answer to the search, and an HTML answer to the
    batch request. *)
Lemma non_json_response_is_fatal_witness :
  fst (syncSearchPage (rt := Doubles.rtSearchHtml) (Doubles.opts None) Doubles.world0)
  = Exit 1
  /\ fst (syncSearchPage (rt := Doubles.rtBatchHtml) (Doubles.opts None) Doubles.world0)
     = Exit 1.
Proof.
  destruct (non_json_response_is_fatal (rt := Doubles.rtSearchHtml))
    as (_ & _ & _ & H & _).
  destruct (non_json_response_is_fatal (rt := Doubles.rtBatchHtml))
    as (_ & _ & _ & _ & H' & _).
  split.
  - apply H. reflexivity.
  - apply (H' (Doubles.opts None) Doubles.world0
              (Doubles.found 250 [Doubles.item1; Doubles.item2])
              (snd (codeSearch (rt := Doubles.rtBatchHtml) (Doubles.opts None)
                      Doubles.world0)));
      reflexivity.
Defined.

(** C2 on three values of two qualifiers. *)
Lemma makeSearchURL_query_witness :
  URL.searchParams
    (makeSearchURL
       {| qualifiers := [("extension", QScalar "cql");
                         ("user", QArray ["apache"; "datastax"])] |})
  = [("q", "extension:cql user:apache user:datastax");
     ("per_page", "100"); ("page", "1")].
Proof.
  exact (proj1 (makeSearchURL_query
                  {| qualifiers := [("extension", QScalar "cql");
                                    ("user", QArray ["apache"; "datastax"])] |})).
Defined.

(** C6 on two items: the answer holds the text [X] for the first and the
    empty string for the second; the contents are [X] and null. *)
Lemma retrieveObjectContents_positional_witness :
  fst (retrieveObjectContents (rt := Doubles.rtOk) "t"
         [Doubles.item1; Doubles.item2] Doubles.world0)
  = Ret (inl [VStr "X"; VNull])
  /\ snd (retrieveObjectContents (rt := Doubles.rtOk) "t"
            [Doubles.item1; Doubles.item2] Doubles.world0)
     = addTrace (advance Doubles.world0 2)
         [EvFetch
            (batchRequest (rt := Doubles.rtOk) "t"
               (batchQuery [aliasedFragment "qu0" Doubles.item1;
                            aliasedFragment "qu1" Doubles.item2]))]
  /\ json (fetchGraphql (Runtime := Doubles.rtOk)
             (batchRequest (rt := Doubles.rtOk) "t"
                (batchQuery [aliasedFragment "qu0" Doubles.item1;
                             aliasedFragment "qu1" Doubles.item2])))
     = Some (Doubles.batch (VStr "X") (VStr ""))
  /\ answerText (Doubles.batch (VStr "X") (VStr "")) "qu0" = VStr "X"
  /\ nth_error [VStr "X"; VNull] 0 = Some (VStr "X")
  /\ answerText (Doubles.batch (VStr "X") (VStr "")) "qu1" = VStr ""
  /\ nth_error [VStr "X"; VNull] 1 = Some VNull.
Proof.
  destruct (retrieveObjectContents_positional (rt := Doubles.rtOk) "t"
              [Doubles.item1; Doubles.item2] Doubles.world0
              (snd (retrieveObjectContents (rt := Doubles.rtOk) "t"
                      [Doubles.item1; Doubles.item2] Doubles.world0))
              [VStr "X"; VNull] eq_refl)
    as (_ & _ & _ & Hw & _ & answer & Hj & Hc).
  injection Hj as <-.
  split; [reflexivity|]. split; [exact Hw|]. split; [reflexivity|].
  split; [reflexivity|].
  split; [apply (proj1 (Hc 0 "qu0" eq_refl) "X" eq_refl); discriminate|].
  split; [reflexivity|].
  apply (proj1 (proj2 (Hc 1 "qu1" eq_refl))). right. right. reflexivity.
Defined.

(** C7 on a search without matches. *)
Lemma retrieveObjectContents_empty_witness :
  retrieveObjectContents (rt := Doubles.rtNoMatch) "t" [] Doubles.world0
  = (Ret (inl []),
     addTrace Doubles.world0
       [EvFetch (graphqlRequest (rt := Doubles.rtNoMatch) "t" (queryDocument []))]).
Proof.
  destruct (retrieveObjectContents_empty (rt := Doubles.rtNoMatch) "t" Doubles.world0)
    as (_ & _ & _ & H).
  apply H; discriminate || reflexivity.
Defined.

(** C5 on the round trip of the specification. *)
Lemma syncToOutdir_writes_witness :
  syncToOutdir (rt := Doubles.rtOk) "out" [Doubles.item1] [VStr "X"] Doubles.world0
  = (Ret tt,
     addTrace Doubles.world0 [EvMkdir "out"; EvWriteFile "out/o_r_a_b_c.sql" (VStr "X")]).
Proof.
  refine (proj2 (proj2 (syncToOutdir_writes (rt := Doubles.rtOk) "out" [] []
                          Doubles.world0))
            "X" "c.sql" false _).
  discriminate.
Defined.

(** C10 on two items: the second one's blob is empty. *)
Lemma empty_text_is_never_written_witness :
  nth_error [VStr "X"; VNull] 1 = Some VNull
  /\ forall w2,
       syncToOutdirStep (rt := Doubles.rtOk) "out" [Doubles.item1; Doubles.item2]
         [VStr "X"; VNull] 1 w2 = (Ret tt, w2).
Proof.
  destruct (empty_text_is_never_written (rt := Doubles.rtOk) "t"
              [Doubles.item1; Doubles.item2] Doubles.world0
              (snd (retrieveObjectContents (rt := Doubles.rtOk) "t"
                      [Doubles.item1; Doubles.item2] Doubles.world0))
              [VStr "X"; VNull]
              (Doubles.batch (VStr "X") (VStr "")) 1 "qu1"
              eq_refl eq_refl eq_refl eq_refl)
    as (H1 & H2 & _).
  split; [exact H1 | exact (H2 "out")].
Defined.

(** * Where the specification's wording fails *)

(** C3 as stated fails at page number 0: with 250 results the sync reports 2
    remaining pages out of 3, not 3 minus 0. *)
Lemma page_zero_remaining_counterexample :
  syncSearchPage (rt := Doubles.rtOk) (Doubles.opts (Some 0%Z)) Doubles.world0
  = (Ret (Success {| remaining := 2; total := 3 |}),
     snd (syncSearchPage (rt := Doubles.rtOk) (Doubles.opts (Some 0%Z))
            Doubles.world0))
  /\ ~ (forall p w',
          syncSearchPage (rt := Doubles.rtOk) (Doubles.opts (Some 0%Z)) Doubles.world0
          = (Ret (Success p), w') ->
          remaining p
          = (total p - specCurrentPage (page (Doubles.opts (Some 0%Z))))%Z).
Proof.
  split; [reflexivity|].
  intros H.
  specialize (H {| remaining := 2; total := 3 |} _ eq_refl).
  discriminate H.
Qed.

(** C9 as stated fails at page number 0: the supplied number is not written
    to the URL, whose [page] parameter stays 1, and the request is made on
    the URL as it was. *)
Lemma page_zero_parameter_counterexample :
  page (Doubles.opts (Some 0%Z)) = Some 0%Z
  /\ w_url (snd (syncSearchPage (rt := Doubles.rtOk) (Doubles.opts (Some 0%Z))
                   Doubles.world0))
     = w_url Doubles.world0
  /\ URL.get "page"
       (w_url (snd (syncSearchPage (rt := Doubles.rtOk) (Doubles.opts (Some 0%Z))
                      Doubles.world0)))
     <> Some (numberToString 0).
Proof.
  repeat split. discriminate.
Qed.

(** C4 as stated fails for a 403 whose [x-ratelimit-reset] header is present
    and empty: the reset is null, not a date. *)
Lemma empty_reset_header_counterexample :
  let response :=
    Doubles.resp (B := jsval) 403 (Doubles.limitedHeaders "") None in
  isJsonContentType (headers response) = true
  /\ status response = 403%Z
  /\ Headers_get "x-ratelimit-reset" (headers response) = Some ""
  /\ errorFromGitHubResponse response Doubles.world0
     = (Ret (Some (RateLimited None)), Doubles.world0)
  /\ errorFromGitHubResponse response Doubles.world0
     <> (Ret (Some (RateLimited
                     (specReset (Headers_get "x-ratelimit-reset" (headers response))))),
         Doubles.world0).
Proof.
  repeat split. discriminate.
Qed.

(** C5 as stated fails for a content that is the empty string: it is not
    null, and no file is written for it. *)
Lemma empty_content_counterexample :
  syncToOutdir (rt := Doubles.rtOk) "out" [Doubles.item1] (map ofNullable [Some ""])
    Doubles.world0
  = (Ret tt, addTrace Doubles.world0 [EvMkdir "out"])
  /\ syncToOutdir (rt := Doubles.rtOk) "out" [Doubles.item1]
       (map ofNullable [Some ""]) Doubles.world0
     <> (Ret tt,
         addTrace Doubles.world0
           (EvMkdir "out"
            :: specWrites (rt := Doubles.rtOk) "out" [Doubles.item1] [Some ""])).
Proof.
  split; [reflexivity | discriminate].
Qed.

(** C6 as stated fails for a blob whose text is the empty string: the aliased
    result has a blob text, the empty one, and the content is null. *)
Lemma empty_blob_text_counterexample :
  let answer := Doubles.batch (VStr "X") (VStr "") in
  fst (retrieveObjectContents (rt := Doubles.rtOk) "t"
         [Doubles.item1; Doubles.item2] Doubles.world0)
  = Ret (inl [VStr "X"; VNull])
  /\ json (fetchGraphql (Runtime := Doubles.rtOk)
             (contentRequest (rt := Doubles.rtOk) "t"
                [Doubles.item1; Doubles.item2] Doubles.world0))
     = Some answer
  /\ nth_error (keysFrom (rt := Doubles.rtOk) 0 2) 1 = Some "qu1"
  /\ answerText answer "qu1" = VStr ""
  /\ nth_error [VStr "X"; VNull] 1
     <> Some (contentAsStated (answerText answer "qu1")).
Proof.
  repeat split. discriminate.
Qed.

(** * A whole run *)

(** Two matched items, one with content and one with an empty blob: one
    search request, one batch request, one directory and one file. *)
Example syncSearchPage_two_items :
  map (fun ev =>
         match ev with
         | EvFetch r => req_method r
         | EvConsoleLog _ => "log"
         | EvMkdir d => d
         | EvWriteFile f _ => f
         end)
    (w_trace (snd (syncSearchPage (rt := Doubles.rtOk) (Doubles.opts None)
                     Doubles.world0)))
  = ["GET"; "POST"; "out"; "out/o_r_a_b_c.sql"]
  /\ fst (syncSearchPage (rt := Doubles.rtOk) (Doubles.opts None) Doubles.world0)
     = Ret (Success {| remaining := 2; total := 3 |}).
Proof. split; reflexivity. Qed.

(** * Further properties of the pipeline *)

Section Calls.

Context {rt : Runtime}.

Lemma logsOnly_counts (evs : list event) :
  logsOnly evs ->
  filter isFetchEvent evs = [] /\ existsb isFsEvent evs = false.
Proof.
  induction 1 as [|ev evs [args ->] _ [IH1 IH2]]; simpl; auto.
Qed.

(** [syncSearchPage] by the outcomes of its steps. *)
Lemma syncSearchPage_unfold (syncOpts : SyncSearchPageOpts) (w : world) :
  syncSearchPage syncOpts w =
    match codeSearch syncOpts (afterPage syncOpts w) with
    | (Ret (inr e), w1) => (Ret (Error e), w1)
    | (Ret (inl r), w1) =>
        match retrieveObjectContents (ghToken syncOpts) (items r) w1 with
        | (Ret (inr e), w2) => (Ret (Error e), w2)
        | (Ret (inl cs), w2) =>
            let pageCount := Math_ceil_div (total_count r) 100 in
            (Ret (Success {| remaining := pageCount - pageOr (page syncOpts) 1;
                             total := pageCount |}),
             addTrace w2
               (EvMkdir (outdir syncOpts) :: writesFor (outdir syncOpts) (items r) cs))
        | (Exit c, w2) => (Exit c, w2)
        | (Throw e, w2) => (Throw e, w2)
        end
    | (Exit c, w1) => (Exit c, w1)
    | (Throw e, w1) => (Throw e, w1)
    end.
Proof.
  unfold syncSearchPage, bind at 1. rewrite applyPage_ret. unfold bind at 1.
  destruct (codeSearch syncOpts (afterPage syncOpts w)) as [[[r|e]|c|e] w1];
    try reflexivity.
  unfold bind at 1.
  destruct (retrieveObjectContents (ghToken syncOpts) (items r) w1)
    as [[[cs|e]|c|e] w2]; try reflexivity.
  unfold bind. rewrite syncToOutdir_spec. reflexivity.
Qed.

(** Whatever its outcome, the search step makes its request first, and then
    at most the fatal log. *)
Lemma codeSearch_world (syncOpts : SyncSearchPageOpts) (w : world) :
  exists evs,
    snd (codeSearch syncOpts w)
    = addTrace w (EvFetch (searchRequest syncOpts (w_url w)) :: evs)
    /\ logsOnly evs.
Proof.
  rewrite codeSearch_unfold.
  set (req := searchRequest syncOpts (w_url w)).
  destruct (error_world (fetchSearch req) (addTrace w [EvFetch req]))
    as (evs & Hw & Hlog & _).
  exists evs. rewrite addTrace_app in Hw. simpl in Hw. split; [|exact Hlog].
  destruct (errorFromGitHubResponse (fetchSearch req) (addTrace w [EvFetch req]))
    as [[[e|]|c|e] w1]; simpl in *; try exact Hw.
  destruct (json (fetchSearch req)); exact Hw.
Qed.

(** Whatever its outcome, the content fetcher draws one UUID per item, makes
    its request, and then at most the fatal log. *)
Lemma retrieveObjectContents_world (ghToken : string) (items : list SearchItem)
  (w : world) :
  exists evs,
    snd (retrieveObjectContents ghToken items w)
    = addTrace (advance w (length items))
        (EvFetch (contentRequest ghToken items w) :: evs)
    /\ logsOnly evs.
Proof.
  rewrite retrieveObjectContents_unfold.
  set (req := contentRequest ghToken items w).
  set (w1 := addTrace (advance w (length items)) [EvFetch req]).
  destruct (error_world (fetchGraphql req) w1) as (evs & Hw & Hlog & _).
  exists evs. split; [|exact Hlog].
  assert (E : addTrace w1 evs
              = addTrace (advance w (length items)) (EvFetch req :: evs)).
  { unfold w1. now rewrite addTrace_app. }
  rewrite <- E. clear E.
  destruct (errorFromGitHubResponse (fetchGraphql req) w1)
    as [[[e|]|c|e] w2]; simpl in *; try exact Hw.
  destruct (json (fetchGraphql req)) as [j|]; [|exact Hw].
  destruct (extractAll j (keysFrom (w_uuids w) (length items))); exact Hw.
Qed.

Lemma writesFor_length (outdir : string) (items : list SearchItem)
  (contents : list jsval) :
  length (writesFor outdir items contents) <= length items.
Proof.
  unfold writesFor. revert contents.
  induction items as [|item items IH]; intros [|c contents]; simpl; try lia.
  rewrite length_app. specialize (IH contents).
  destruct (truthy c); simpl; lia.
Qed.

Lemma writesFor_fs (outdir : string) (items : list SearchItem)
  (contents : list jsval) :
  filter isFetchEvent (writesFor outdir items contents) = [].
Proof.
  unfold writesFor. revert contents.
  induction items as [|item items IH]; intros [|c contents]; simpl; try reflexivity.
  rewrite filter_app, IH. destruct (truthy c); reflexivity.
Qed.

End Calls.

(** X1. A successful page sync has made, in this order, the search request,
    the batch request for the matched items, the [mkdir] of the output
    directory and one [writeFile] per matched item whose content, in the list
    the content fetcher returned for these items, is truthy, and nothing
    else; it has drawn one UUID per matched item; there are as many contents
    as items and at most as many writes. *)
Theorem syncSearchPage_success_trace {rt : Runtime}
  (syncOpts : SyncSearchPageOpts) (w w' : world) (p : Pages) :
  syncSearchPage syncOpts w = (Ret (Success p), w') ->
  let w0 := afterPage syncOpts w in
  let w1 := addTrace w0 [EvFetch (searchRequest syncOpts (w_url w0))] in
  exists r cs,
    json (fetchSearch (searchRequest syncOpts (w_url w0))) = Some (inl r)
    /\ fst (retrieveObjectContents (ghToken syncOpts) (items r) w1) = Ret (inl cs)
    /\ length cs = length (items r)
    /\ w_trace w' =
         w_trace w
         ++ [EvFetch (searchRequest syncOpts (w_url w0));
             EvFetch (contentRequest (ghToken syncOpts) (items r) w0);
             EvMkdir (outdir syncOpts)]
         ++ writesFor (outdir syncOpts) (items r) cs
    /\ w_uuids w' = w_uuids w + length (items r)
    /\ length (writesFor (outdir syncOpts) (items r) cs) <= length (items r).
Proof.
  intros Hrun w0 w1.
  destruct (afterPage_frame syncOpts w) as [Ht Hu]. fold w0 in Ht, Hu.
  rewrite syncSearchPage_unfold in Hrun. fold w0 in Hrun.
  destruct (codeSearch syncOpts w0) as [[[r|e]|c|e] w1'] eqn:Hs; try discriminate.
  pose proof (codeSearch_ret_world _ _ _ _ Hs) as Hw1. fold w1 in Hw1. subst w1'.
  destruct (retrieveObjectContents (ghToken syncOpts) (items r) w1)
    as [[[cs|e]|c|e] w2] eqn:Hc; try discriminate.
  inversion Hrun; subst; clear Hrun.
  pose proof (retrieveObjectContents_ret_world _ _ _ _ _ Hc) as Hw2.
  destruct (retrieveObjectContents_success _ _ _ _ _ Hc) as (j & _ & Hall).
  destruct (extractAll_nth _ _ _ Hall) as [Hlen _].
  rewrite keysFrom_length in Hlen.
  exists r, cs. split; [|split; [now rewrite Hc|split; [exact Hlen|split; [|split]]]].
  - rewrite codeSearch_unfold in Hs.
    destruct (errorFromGitHubResponse _ _) as [[[e|]|c|e] w3]; try discriminate.
    destruct (json (fetchSearch (searchRequest syncOpts (w_url w0)))) as [b|];
      [|discriminate].
    inversion Hs; subst. reflexivity.
  - subst w2. unfold w1. simpl. rewrite Ht, <- !app_assoc. reflexivity.
  - subst w2. unfold w1. simpl. now rewrite Hu.
  - apply writesFor_length.
Qed.

(** X2. Whatever its outcome, the content fetcher makes exactly one request,
    the batch request for all the items, after drawing exactly one UUID per
    item; it leaves the URL alone and calls neither [mkdir] nor [writeFile]. *)
Theorem retrieveObjectContents_single_request {rt : Runtime}
  (ghToken : string) (items : list SearchItem) (w : world) :
  let w' := snd (retrieveObjectContents ghToken items w) in
  w_uuids w' = w_uuids w + length items
  /\ w_url w' = w_url w
  /\ exists evs,
       w_trace w' = w_trace w ++ evs
       /\ filter isFetchEvent evs = [EvFetch (contentRequest ghToken items w)]
       /\ existsb isFsEvent evs = false.
Proof.
  intros w'. destruct (retrieveObjectContents_world ghToken items w)
    as (evs & Hw & Hlog).
  fold w' in Hw. rewrite Hw. simpl. repeat split.
  exists (EvFetch (contentRequest ghToken items w) :: evs).
  destruct (logsOnly_counts _ Hlog) as [H1 H2].
  simpl. rewrite H1, H2. repeat split.
Qed.

(** X3. Whatever its outcome, [syncSearchPage] makes the search request
    first and at most one more request; when the search step does not return
    a response, or the content fetcher does not return a content list for its
    items, it calls neither [mkdir] nor [writeFile]. *)
Theorem syncSearchPage_calls {rt : Runtime}
  (syncOpts : SyncSearchPageOpts) (w : world) :
  let w0 := afterPage syncOpts w in
  exists evs,
    w_trace (snd (syncSearchPage syncOpts w))
    = w_trace w ++ EvFetch (searchRequest syncOpts (w_url w0)) :: evs
    /\ length (filter isFetchEvent evs) <= 1
    /\ ((forall r w1,
           codeSearch syncOpts w0 = (Ret (inl r), w1) ->
           forall cs,
             fst (retrieveObjectContents (ghToken syncOpts) (items r) w1)
             <> Ret (inl cs)) ->
        existsb isFsEvent evs = false).
Proof.
  intros w0. destruct (afterPage_frame syncOpts w) as [Ht _]. fold w0 in Ht.
  rewrite syncSearchPage_unfold. fold w0.
  destruct (codeSearch_world syncOpts w0) as (evs1 & Hw1 & Hlog1).
  destruct (logsOnly_counts _ Hlog1) as [F1 S1].
  destruct (codeSearch syncOpts w0) as [[[r|e]|c|e] w1] eqn:Hs; simpl in Hw1;
    try (exists evs1; subst w1; simpl; rewrite Ht, F1; simpl;
         repeat split; [lia | intros _; exact S1]).
  pose proof (codeSearch_ret_world _ _ _ _ Hs) as Hret. clear Hw1.
  destruct (retrieveObjectContents_world (ghToken syncOpts) (items r) w1)
    as (evs2 & Hw2 & Hlog2).
  destruct (logsOnly_counts _ Hlog2) as [F2 S2].
  set (req2 := contentRequest (ghToken syncOpts) (items r) w1) in *.
  destruct (retrieveObjectContents (ghToken syncOpts) (items r) w1)
    as [[[cs|e]|c|e] w2] eqn:Hc; simpl in Hw2;
    try (exists (EvFetch req2 :: evs2); subst w2 w1; simpl;
         rewrite Ht, F2, <- app_assoc; simpl;
         repeat split; [lia | intros _; exact S2]).
  pose proof Hc as Hc'.
  apply retrieveObjectContents_ret_world in Hc.
  exists (EvFetch req2
          :: EvMkdir (outdir syncOpts) :: writesFor (outdir syncOpts) (items r) cs).
  split; [|split].
  - unfold req2. rewrite Hc. simpl. rewrite Hret. simpl.
    rewrite Ht, <- !app_assoc. reflexivity.
  - simpl. rewrite writesFor_fs. simpl. lia.
  - intros H. exfalso. apply (H r w1 eq_refl cs). now rewrite Hc'.
Qed.

Section ContentErrors.

Context {rt : Runtime}.

Lemma getProp_error (v : jsval) (k : string) (e : exn) :
  getProp v k = inr e -> e = TypeError.
Proof. destruct v; simpl; intros H; inversion H; reflexivity. Qed.

Lemma aliasedText_error (j : jsval) (key : string) (e : exn) :
  aliasedText j key = inr e -> e = TypeError.
Proof.
  unfold aliasedText.
  destruct (getProp j "data") as [data|e1] eqn:E1.
  2:{ intros H; inversion H; subst. eapply getProp_error; eassumption. }
  destruct (getProp data key) as [repo|e2] eqn:E2.
  2:{ intros H; inversion H; subst. eapply getProp_error; eassumption. }
  destruct (getProp repo "object") as [obj|e3] eqn:E3.
  2:{ intros H; inversion H; subst. eapply getProp_error; eassumption. }
  destruct obj; simpl; intros H; inversion H.
Qed.

Lemma extractAll_error (j : jsval) (keys : list string) (e : exn) :
  extractAll j keys = inr e -> e = TypeError.
Proof.
  induction keys as [|key keys IH]; simpl; [discriminate|].
  unfold extractText.
  destruct (aliasedText j key) as [t|e1] eqn:E1.
  - destruct (extractAll j keys) as [cs|e2]; [discriminate|].
    intros H; inversion H; subst. now apply IH.
  - intros H; inversion H; subst. eapply aliasedText_error; eassumption.
Qed.

Lemma extractAll_fails_at (j : jsval) (keys : list string) (i : nat)
  (key : string) (e : exn) :
  nth_error keys i = Some key ->
  aliasedText j key = inr e ->
  extractAll j keys = inr TypeError.
Proof.
  intros Hk He.
  destruct (extractAll j keys) as [cs|e'] eqn:E.
  - destruct (extractAll_nth _ _ _ E) as [_ H].
    destruct (H i key Hk) as (t & Ht & _). congruence.
  - now rewrite (extractAll_error _ _ _ E).
Qed.

End ContentErrors.

(** X4. When the batch answer is a JSON answer other than a 401 or a 403
    whose [data] holds null or nothing under the key of one item (a
    repository the service did not find), the content fetcher throws a
    [TypeError] after its one request: no content list is returned, whatever
    the answer holds for the other items. *)
Theorem retrieveObjectContents_missing_repository {rt : Runtime}
  (ghToken : string) (items : list SearchItem) (w : world)
  (j data : jsval) (i : nat) (key : string) :
  let req := contentRequest ghToken items w in
  isJsonContentType (headers (fetchGraphql req)) = true ->
  status (fetchGraphql req) <> 401%Z ->
  status (fetchGraphql req) <> 403%Z ->
  json (fetchGraphql req) = Some j ->
  getProp j "data" = inl data ->
  nth_error (keysFrom (w_uuids w) (length items)) i = Some key ->
  getProp data key = inl VNull \/ getProp data key = inl VUndefined ->
  retrieveObjectContents ghToken items w
  = (Throw TypeError, addTrace (advance w (length items)) [EvFetch req]).
Proof.
  intros req Hj H1 H3 Hb Hd Hk Hr.
  assert (He : aliasedText j key = inr TypeError).
  { unfold aliasedText. rewrite Hd. destruct Hr as [Hr|Hr]; rewrite Hr; reflexivity. }
  rewrite retrieveObjectContents_unfold. fold req.
  rewrite error_other by assumption. rewrite Hb.
  now rewrite (extractAll_fails_at _ _ _ _ _ Hk He).
Qed.

Section Paging.

Context {rt : Runtime}.

Lemma lookup_remove_name_other (name n : string) (ps : list (string * string)) :
  name <> n -> lookup name (URL.remove_name n ps) = lookup name ps.
Proof.
  intros Hne. induction ps as [|[k v] ps IH]; simpl; [reflexivity|].
  destruct (k =? n) eqn:E; simpl.
  - apply String.eqb_eq in E. subst k.
    assert (E' : (n =? name) = false) by (apply String.eqb_neq; congruence).
    now rewrite E'.
  - now rewrite IH.
Qed.

Lemma lookup_set_params_other (name n value : string) (ps : list (string * string)) :
  name <> n -> lookup name (URL.set_params n value ps) = lookup name ps.
Proof.
  intros Hne. induction ps as [|[k v] ps IH]; simpl.
  - assert (E' : (n =? name) = false) by (apply String.eqb_neq; congruence).
    now rewrite E'.
  - destruct (k =? n) eqn:E; simpl.
    + apply String.eqb_eq in E. subst k.
      assert (E' : (n =? name) = false) by (apply String.eqb_neq; congruence).
      rewrite E'. now apply lookup_remove_name_other.
    + now rewrite IH.
Qed.

Lemma afterPage_url (syncOpts : SyncSearchPageOpts) (w : world) :
  w_url (afterPage syncOpts w)
  = match page syncOpts with
    | Some n =>
        if (n =? 0)%Z then w_url w
        else URL.set "page" (numberToString n) (w_url w)
    | None => w_url w
    end.
Proof.
  unfold afterPage, applyPage. destruct (page syncOpts) as [n|]; [|reflexivity].
  simpl. destruct (n =? 0)%Z; reflexivity.
Qed.

End Paging.

(** X5. Whatever its outcome and whatever page is asked for, [syncSearchPage]
    leaves the scheme, host and path of the URL and every query parameter
    other than [page] as they were; on a URL built by [makeSearchURL], a
    non-zero page number leaves exactly the parameters [q], [per_page=100]
    and [page] set to that number. *)
Theorem syncSearchPage_keeps_query {rt : Runtime}
  (syncOpts : SyncSearchPageOpts) (w : world) :
  let url' := w_url (snd (syncSearchPage syncOpts w)) in
  URL.href_base url' = URL.href_base (w_url w)
  /\ (forall name, name <> "page" -> URL.get name url' = URL.get name (w_url w))
  /\ (forall opts n,
        w_url w = makeSearchURL opts ->
        page syncOpts = Some n -> n <> 0%Z ->
        URL.searchParams url' =
          [("q", join " " (specTokens (qualifiers opts)));
           ("per_page", "100"); ("page", numberToString n)]).
Proof.
  intros url'.
  destruct (syncSearchPage_extends syncOpts w) as [Hu _]. simpl in Hu.
  fold url' in Hu. rewrite Hu, afterPage_url.
  split; [|split].
  - destruct (page syncOpts) as [n|]; [destruct (n =? 0)%Z|]; reflexivity.
  - intros name Hne.
    destruct (page syncOpts) as [n|]; [destruct (n =? 0)%Z|]; try reflexivity.
    unfold URL.get, URL.set. simpl. now apply lookup_set_params_other.
  - intros opts n Hw Hp Hn. rewrite Hp. apply Z.eqb_neq in Hn. rewrite Hn, Hw.
    unfold makeSearchURL. rewrite loop_tokens. reflexivity.
Qed.

Section Names.

Lemma chars_append (a b : string) : chars (a ++ b) = chars a ++ chars b.
Proof.
  unfold chars. induction a as [|c a IH]; simpl; [reflexivity|]. now rewrite IH.
Qed.

Lemma chars_remove (c : ascii) (s : string) :
  chars (replaceAll c "" s) = filter (fun a => negb (Ascii.eqb a c)) (chars s).
Proof.
  unfold chars. induction s as [|a s IH]; simpl; [reflexivity|].
  destruct (Ascii.eqb a c); simpl; now rewrite IH.
Qed.

Lemma chars_replace (c r : ascii) (s : string) :
  chars (replaceAll c (String r EmptyString) s)
  = map (fun a => if Ascii.eqb a c then r else a) (chars s).
Proof.
  unfold chars. induction s as [|a s IH]; simpl; [reflexivity|].
  destruct (Ascii.eqb a c); simpl; now rewrite IH.
Qed.

Lemma chars_inj (a b : string) : chars a = chars b -> a = b.
Proof.
  unfold chars. intros H.
  rewrite <- (string_of_list_ascii_of_string a), <- (string_of_list_ascii_of_string b).
  now rewrite H.
Qed.

End Names.

(** X6. The correlation key of a UUID is the letter [q] followed by the
    characters of the UUID other than the hyphen, in their order: it starts
    with a letter and holds no hyphen. *)
Theorem keyOfUUID_alias (uuid : string) :
  chars (keyOfUUID uuid)
  = "q"%char :: filter (fun a => negb (Ascii.eqb a "-")) (chars uuid)
  /\ ~ In "-"%char (chars (keyOfUUID uuid)).
Proof.
  assert (E : chars (keyOfUUID uuid)
              = "q"%char :: filter (fun a => negb (Ascii.eqb a "-")) (chars uuid)).
  { unfold keyOfUUID. rewrite chars_append, chars_remove. reflexivity. }
  split; [exact E|]. rewrite E. intros [H|H]; [discriminate|].
  apply filter_In in H. destruct H as [_ H]. now rewrite Ascii.eqb_refl in H.
Qed.

(** X7. When neither the owner's login nor the repository's name holds a
    slash, the file name of an item holds none, whatever its path: the file
    is an entry of the output directory itself. *)
Theorem filenameOf_flat (item : SearchItem) :
  ~ In "/"%char (chars (login (owner (repository item)))) ->
  ~ In "/"%char (chars (repo_name (repository item))) ->
  ~ In "/"%char (chars (filenameOf item)).
Proof.
  intros Hl Hr. unfold filenameOf.
  rewrite !chars_append, chars_replace, !in_app_iff, in_map_iff.
  intros [H|[H|[H|[H|H]]]]; try contradiction.
  - destruct H as [H|[]]; discriminate.
  - destruct H as [H|[]]; discriminate.
  - destruct H as (a & Ha & _). destruct (Ascii.eqb a "/") eqn:E.
    + discriminate.
    + subst a. discriminate.
Qed.

(** X8. File names are not one to one: for every item whose path holds a
    slash there is an item of the same repository with another path and the
    same file name, the one whose path has underscores for the slashes. *)
Theorem filenameOf_collision (item : SearchItem) :
  In "/"%char (chars (path item)) ->
  let item' := {| item_name := item_name item;
                  path := replaceAll "/" "_" (path item);
                  repository := repository item |} in
  path item' <> path item
  /\ filenameOf item' = filenameOf item.
Proof.
  intros Hin item'. split.
  - simpl. intros E. apply (f_equal chars) in E. rewrite chars_replace in E.
    rewrite <- E in Hin. apply in_map_iff in Hin. destruct Hin as (a & Ha & _).
    destruct (Ascii.eqb a "/") eqn:Ea; [discriminate|]. subst a. discriminate.
  - assert (E : replaceAll "/" "_" (replaceAll "/" "_" (path item))
                = replaceAll "/" "_" (path item)).
    { apply chars_inj. rewrite !chars_replace, map_map. apply map_ext. intros a.
      destruct (Ascii.eqb a "/") eqn:Ea; [reflexivity | now rewrite Ea]. }
    unfold filenameOf, item'. cbn [path repository]. now rewrite E.
Qed.

Section DecimalHeader.

Ltac digit_step :=
  cbn [NilEmpty.string_of_uint readDigits];
  match goal with
  | |- context [digitValue ?c] =>
      let v := eval vm_compute in (digitValue c) in
      change (digitValue c) with v; cbv iota beta
  end.

Lemma readDigits_acc (d : Decimal.uint) (a : positive) :
  readDigits (NilEmpty.string_of_uint d) (Some (Z.pos a))
  = Some (Z.pos (Pos.of_uint_acc d a)).
Proof.
  revert a. induction d as [|d IH|d IH|d IH|d IH|d IH|d IH|d IH|d IH|d IH|d IH];
    intros a; [reflexivity|..]; digit_step; cbn [Pos.of_uint_acc];
    rewrite <- IH; do 2 f_equal; lia.
Qed.

Lemma readDigits_zero (d : Decimal.uint) :
  readDigits (NilEmpty.string_of_uint d) (Some 0%Z)
  = Some (Z.of_N (Pos.of_uint d)).
Proof.
  induction d as [|d IH|d IH|d IH|d IH|d IH|d IH|d IH|d IH|d IH|d IH];
    [reflexivity|..]; digit_step; cbn [Pos.of_uint];
    try exact IH; apply readDigits_acc.
Qed.

Lemma readDigits_start (d : Decimal.uint) :
  d <> Decimal.Nil ->
  readDigits (NilEmpty.string_of_uint d) None = Some (Z.of_N (Pos.of_uint d)).
Proof.
  intros Hd. rewrite <- readDigits_zero.
  destruct d; [contradiction|..]; reflexivity.
Qed.

Lemma to_uint_nonnil (p : positive) : Pos.to_uint p <> Decimal.Nil.
Proof.
  intros H. pose proof (DecimalPos.Unsigned.of_to p) as E.
  rewrite H in E. discriminate E.
Qed.

Lemma parseInt10_uint (d : Decimal.uint) :
  d <> Decimal.Nil ->
  parseInt10 (NilEmpty.string_of_uint d) = Some (Z.of_N (Pos.of_uint d)).
Proof.
  intros Hd. rewrite <- (readDigits_start d Hd).
  destruct d; [contradiction|..]; reflexivity.
Qed.

(** [parseInt] reads back the decimal writing of every integer. *)
Lemma parseInt10_numberToString (n : Z) :
  parseInt10 (numberToString n) = Some n.
Proof.
  unfold numberToString. destruct n as [|p|p]; [reflexivity|..];
    cbn [Z.to_int NilEmpty.string_of_int].
  - rewrite parseInt10_uint by apply to_uint_nonnil.
    now rewrite DecimalPos.Unsigned.of_to.
  - unfold parseInt10. cbn [trimStart]. change (isWhiteSpace "-") with false.
    cbv iota. rewrite readDigits_start by apply to_uint_nonnil.
    now rewrite DecimalPos.Unsigned.of_to.
Qed.

Lemma numberToString_nonempty (n : Z) : (numberToString n =? "") = false.
Proof.
  unfold numberToString. destruct n as [|p|p]; try reflexivity.
  cbn [Z.to_int NilEmpty.string_of_int].
  pose proof (to_uint_nonnil p) as H.
  destruct (Pos.to_uint p); [contradiction|..]; reflexivity.
Qed.

End DecimalHeader.

(** X9. A JSON 403 whose [x-ratelimit-reset] header is the decimal writing of
    an integer number of seconds carries as reset the date at a thousand
    times that number of milliseconds; the date is invalid when the number
    is beyond the 8 640 000 000 000 seconds a date can be away from the epoch. *)
Theorem rate_limit_reset_seconds {B : Type} (response : Response B) (w : world)
  (n : Z) :
  isJsonContentType (headers response) = true ->
  status response = 403%Z ->
  Headers_get "x-ratelimit-reset" (headers response) = Some (numberToString n) ->
  errorFromGitHubResponse response w
  = (Ret (Some (RateLimited
                  (Some (if (Z.abs n <=? 8640000000000)%Z
                         then ValidDate (n * 1000)
                         else InvalidDate)))), w).
Proof.
  intros Hj Hs Hh. rewrite error_403, Hh by assumption.
  rewrite numberToString_nonempty, parseInt10_numberToString.
  unfold times, newDate. cbn [option_map].
  destruct (Z.leb_spec (Z.abs n) 8640000000000),
           (Z.leb_spec (Z.abs (n * 1000)) 8640000000000000);
    try reflexivity; lia.
Qed.

(** X10. For a successful page sync of a search whose [total_count] is not
    negative: the total page count is not negative, it is 0 exactly when
    there is no result, and without a page number the remaining count is
    negative, namely -1, exactly when there is no result. *)
Theorem syncSearchPage_no_results {rt : Runtime}
  (syncOpts : SyncSearchPageOpts) (w w' : world) (p : Pages) :
  syncSearchPage syncOpts w = (Ret (Success p), w') ->
  exists r,
    json (fetchSearch (searchRequest syncOpts (w_url (afterPage syncOpts w))))
      = Some (inl r)
    /\ ((0 <= total_count r)%Z ->
        (0 <= total p)%Z
        /\ (total p = 0%Z <-> total_count r = 0%Z)
        /\ (page syncOpts = None ->
            ((remaining p < 0)%Z <-> total_count r = 0%Z)
            /\ (total_count r = 0%Z -> remaining p = (-1)%Z))).
Proof.
  intros Hrun.
  destruct (syncSearchPage_success _ _ _ _ Hrun) as (r & Hj & Ht & Hr).
  exists r. split; [exact Hj|]. intros Hpos.
  pose proof (Math_ceil_div_bounds (total_count r)) as Hb. rewrite <- Ht in Hb.
  split; [lia|]. split; [lia|].
  intros Hp. rewrite Hp in Hr. simpl in Hr. lia.
Qed.

(** * The command line *)

Section Qualifiers.

Lemma lookup_In {A : Type} (k : string) (fs : list (string * A)) (x : A) :
  lookup k fs = Some x -> In (k, x) fs.
Proof.
  induction fs as [|[k' v] fs IH]; simpl; [discriminate|].
  destruct (k' =? k) eqn:E.
  - apply String.eqb_eq in E. intros H; inversion H; subst. now left.
  - intros H. right. now apply IH.
Qed.

Lemma lookup_None_notin {A : Type} (k : string) (fs : list (string * A)) :
  lookup k fs = None -> ~ In k (map fst fs).
Proof.
  induction fs as [|[k' v] fs IH]; simpl; [tauto|].
  destruct (k' =? k) eqn:E; [discriminate|].
  apply String.eqb_neq in E. intros H [H'|H']; [congruence | now apply IH].
Qed.

Lemma lookup_assign_same (field : string) (v : qvalue)
  (qs : list (string * qvalue)) :
  lookup field (assign field v qs) = Some v.
Proof.
  induction qs as [|[k old] qs IH]; simpl.
  - now rewrite String.eqb_refl.
  - destruct (k =? field) eqn:E; simpl; rewrite E; [reflexivity | exact IH].
Qed.

Lemma lookup_assign_other (field f : string) (v : qvalue)
  (qs : list (string * qvalue)) :
  f <> field -> lookup f (assign field v qs) = lookup f qs.
Proof.
  intros Hne. induction qs as [|[k old] qs IH]; simpl.
  - assert (E : (field =? f) = false) by (apply String.eqb_neq; congruence).
    now rewrite E.
  - destruct (k =? field) eqn:E; simpl; [|now rewrite IH].
    apply String.eqb_eq in E. subst k.
    assert (E : (field =? f) = false) by (apply String.eqb_neq; congruence).
    now rewrite E.
Qed.

Lemma keys_assign (field : string) (v : qvalue) (qs : list (string * qvalue)) :
  map fst (assign field v qs)
  = match lookup field qs with
    | Some _ => map fst qs
    | None => map fst qs ++ [field]
    end.
Proof.
  induction qs as [|[k old] qs IH]; simpl; [reflexivity|].
  destruct (k =? field) eqn:E; simpl; [reflexivity|].
  rewrite IH. now destruct (lookup field qs).
Qed.

Lemma Forall_assign (P : string * qvalue -> Prop) (field : string) (v : qvalue)
  (qs : list (string * qvalue)) :
  Forall P qs -> P (field, v) -> Forall P (assign field v qs).
Proof.
  intros Hqs Hv. induction Hqs as [|[k old] qs Hk Hqs IH]; simpl.
  - now constructor.
  - destruct (k =? field) eqn:E.
    + apply String.eqb_eq in E. subst k. now constructor.
    + now constructor.
Qed.

Lemma NoDup_assign (field : string) (v : qvalue) (qs : list (string * qvalue)) :
  NoDup (map fst qs) -> NoDup (map fst (assign field v qs)).
Proof.
  intros H. rewrite keys_assign.
  destruct (lookup field qs) eqn:E; [exact H|].
  apply lookup_None_notin in E.
  apply NoDup_rev in H. rewrite <- (rev_involutive (map fst qs ++ [field])).
  apply NoDup_rev. rewrite rev_app_distr. simpl. constructor; [|exact H].
  now rewrite <- in_rev.
Qed.

(** The value [addSearchOption] stores under [field]. *)
Lemma addSearchOption_assign (field value : string) (qs : list (string * qvalue)) :
  exists v,
    addSearchOption field value qs = assign field v qs
    /\ qvalues v = valuesAt field qs ++ [value]
    /\ (forall l, v = QArray l -> 2 <= length l \/ lookup field qs = Some (QArray (removelast l))).
Proof.
  unfold addSearchOption, valuesAt.
  destruct (lookup field qs) as [[s|l]|] eqn:E.
  - exists (QArray [s; value]). repeat split. intros l H; inversion H; subst.
    left. simpl. lia.
  - exists (QArray (l ++ [value])). repeat split. intros l' H; inversion H; subst.
    right. now rewrite removelast_last.
  - exists (QScalar value). repeat split. intros l H; discriminate.
Qed.

Lemma addSearchOption_good (field value : string) (qs : list (string * qvalue)) :
  In field qualifierNames ->
  badValue value = false ->
  (field = "in" -> In value validIn) ->
  goodQualifiers qs ->
  goodQualifiers (addSearchOption field value qs).
Proof.
  intros Hf Hv Hin [Hnd Hall].
  destruct (addSearchOption_assign field value qs) as (v & -> & Hvals & Hlen).
  split; [now apply NoDup_assign|].
  apply Forall_assign; [exact Hall|]. cbn [fst snd].
  assert (Hold : match lookup field qs with
                 | Some old =>
                     qvalues old <> []
                     /\ Forall (fun v => badValue v = false) (qvalues old)
                     /\ (field = "in" -> Forall (fun v => In v validIn) (qvalues old))
                     /\ (forall l, old = QArray l -> 2 <= length l)
                 | None => True
                 end).
  { destruct (lookup field qs) as [old|] eqn:E; [|exact I].
    apply lookup_In in E. rewrite Forall_forall in Hall.
    destruct (Hall _ E) as (_ & H1 & H2 & H3 & H4). cbn [fst snd] in *. auto. }
  rewrite Hvals. unfold valuesAt in *.
  split; [exact Hf|]. split; [now destruct (match lookup field qs with
                                            | Some v0 => qvalues v0 | None => [] end)|].
  destruct (lookup field qs) as [old|] eqn:E.
  - destruct Hold as (H1 & H2 & H3 & H4). repeat split.
    + apply Forall_app. split; [exact H2 | now constructor].
    + intros Hi. apply Forall_app. split; [now apply H3 | constructor; auto].
    + intros l Hl. destruct (Hlen l Hl) as [H|H]; [exact H|].
      inversion H as [H']. subst v. cbn [qvalues] in Hvals. rewrite Hvals.
      rewrite length_app. simpl.
      destruct old as [s|l0]; cbn [qvalues] in *.
      * discriminate H'.
      * inversion H'; subst l0. specialize (H4 _ eq_refl). lia.
  - repeat split.
    + now constructor.
    + intros Hi. constructor; auto.
    + intros l Hl. destruct (Hlen l Hl) as [H|H]; [exact H | discriminate H].
Qed.

End Qualifiers.

(** X11. [addSearchOption] appends the value to the values its qualifier
    holds, none when it is absent; it leaves every other qualifier as it is,
    and the order of the qualifiers too, a new qualifier going last. *)
Theorem addSearchOption_values (field value : string)
  (qualifiers : list (string * qvalue)) :
  valuesAt field (addSearchOption field value qualifiers)
  = valuesAt field qualifiers ++ [value]
  /\ (forall f, f <> field ->
        lookup f (addSearchOption field value qualifiers) = lookup f qualifiers)
  /\ map fst (addSearchOption field value qualifiers)
     = match lookup field qualifiers with
       | Some _ => map fst qualifiers
       | None => map fst qualifiers ++ [field]
       end.
Proof.
  destruct (addSearchOption_assign field value qualifiers) as (v & -> & Hvals & _).
  split; [|split].
  - unfold valuesAt at 1. now rewrite lookup_assign_same.
  - intros f Hf. now apply lookup_assign_other.
  - apply keys_assign.
Qed.

Section Parsing.

Lemma list_pair_ind {A : Type} (P : list A -> Prop) :
  P [] ->
  (forall a, P [a]) ->
  (forall a b l, P l -> P (a :: b :: l)) ->
  forall l, P l.
Proof.
  intros H0 H1 H2. fix IH 1. intros [|a [|b l]]; [exact H0 | apply H1 |].
  apply H2. apply IH.
Qed.

Lemma append_nonempty (s t : string) : t <> "" -> (s ++ t)%string <> "".
Proof. destruct s; simpl; [auto | discriminate]. Qed.

Lemma printHelp_some {A : Type} (m : string) :
  m <> "" -> @printHelp A (Some m) = Quit (printError m ++ helpText) 1.
Proof.
  intros H. unfold printHelp. simpl. apply String.eqb_neq in H. now rewrite H.
Qed.

Lemma printHelp_shape {A : Type} (s t : string) (p : list consoleLine) (c : Z) :
  t <> "" ->
  @printHelp A (Some (s ++ t)%string) = Quit p c -> c = 1%Z /\ quitShape p.
Proof.
  intros Ht. rewrite printHelp_some by now apply append_nonempty.
  intros H; inversion H; subst. split; [reflexivity|]. left.
  eexists. split; [|reflexivity]. now apply append_nonempty.
Qed.

Lemma flagOf_qualifier (shifted field : string) :
  flagOf shifted = FlagQualifier field ->
  In field qualifierNames /\ field <> "in".
Proof.
  unfold flagOf.
  repeat match goal with
         | |- context [if ?b then _ else _] => destruct b
         end;
    intros H; inversion H; subst; (split; [simpl; tauto | discriminate]).
Qed.

Lemma existsb_validIn (v : string) :
  existsb (String.eqb v) validIn = true -> In v validIn.
Proof.
  intros H. apply existsb_exists in H. destruct H as (x & Hx & E).
  apply String.eqb_eq in E. now subst.
Qed.

(** One turn of the second loop on a flag followed by a value. *)
Lemma parseOptions_step (shifted maybe : string) (rest : list string)
  (o : option string) (qs : list (string * qvalue)) :
  parseOptions (shifted :: maybe :: rest) o qs
  = match flagOf shifted with
    | FlagDefault => printHelp (Some (shifted ++ " isn't an arg")%string)
    | FlagOutdir =>
        if badValue maybe then printHelp (Some (shifted ++ " missing value")%string)
        else parseOptions rest (Some maybe) qs
    | FlagIn =>
        if badValue maybe then printHelp (Some (shifted ++ " missing value")%string)
        else if existsb (String.eqb maybe) validIn
             then parseOptions rest o (addSearchOption "in" maybe qs)
             else errorExit inMessage
    | FlagQualifier field =>
        if badValue maybe then printHelp (Some (shifted ++ " missing value")%string)
        else parseOptions rest o (addSearchOption field maybe qs)
    end.
Proof.
  cbn [parseOptions]. destruct (flagOf shifted); destruct (badValue maybe); reflexivity.
Qed.

Lemma parseOptions_quit (args : list string) :
  forall o qs p c,
    parseOptions args o qs = Quit p c -> c = 1%Z /\ quitShape p.
Proof.
  induction args as [|a|a b l IH] using list_pair_ind; intros o qs p c.
  - discriminate.
  - cbn [parseOptions]. destruct (flagOf a);
      apply printHelp_shape; discriminate.
  - rewrite parseOptions_step.
    destruct (flagOf a); try (apply printHelp_shape; discriminate);
      destruct (badValue b); try (apply printHelp_shape; discriminate);
      try apply IH.
    destruct (existsb (String.eqb b) validIn); [apply IH|].
    intros H; inversion H; subst. split; [reflexivity | now right].
Qed.

(** The invariant of the second loop. *)
Lemma parseOptions_good (args : list string) :
  forall o qs o' qs',
    goodQualifiers qs ->
    (forall d, o = Some d -> badValue d = false) ->
    parseOptions args o qs = Parsed (o', qs') ->
    goodQualifiers qs' /\ (forall d, o' = Some d -> badValue d = false).
Proof.
  induction args as [|a|a b l IH] using list_pair_ind; intros o qs o' qs' Hq Ho.
  - intros H; inversion H; subst. auto.
  - cbn [parseOptions]. destruct (flagOf a); discriminate.
  - rewrite parseOptions_step.
    destruct (flagOf a) as [|field| |] eqn:Ef; try discriminate;
      destruct (badValue b) eqn:Eb; try discriminate.
    + apply IH; [exact Hq|]. intros d H; inversion H; now subst.
    + destruct (flagOf_qualifier _ _ Ef) as [Hin Hne].
      apply IH; [|exact Ho]. apply addSearchOption_good; auto.
      intros E. contradiction.
    + destruct (existsb (String.eqb b) validIn) eqn:Ev; [|discriminate].
      apply IH; [|exact Ho]. apply addSearchOption_good; auto.
      * simpl. tauto.
      * intros _. now apply existsb_validIn.
Qed.

Lemma goodQualifiers_nil : goodQualifiers [].
Proof. split; constructor. Qed.

Lemma skipProgram_found (pre : list string) (prog : string) (rest : list string) :
  Forall (fun a => endsScan a = false) pre ->
  endsScan prog = true ->
  skipProgram (pre ++ prog :: rest) = rest.
Proof.
  intros Hpre Hprog. induction Hpre as [|a pre Ha _ IH]; simpl.
  - now rewrite Hprog.
  - now rewrite Ha.
Qed.

Lemma skipProgram_none (argv : list string) :
  Forall (fun a => endsScan a = false) argv -> skipProgram argv = [].
Proof.
  induction 1 as [|a l Ha _ IH]; simpl; [reflexivity | now rewrite Ha].
Qed.

End Parsing.

Section Collecting.

Lemma valuesAt_add (f field value : string) (qs : list (string * qvalue)) :
  valuesAt f (addSearchOption field value qs)
  = valuesAt f qs ++ (if field =? f then [value] else []).
Proof.
  destruct (addSearchOption_assign field value qs) as (v & -> & Hvals & _).
  destruct (field =? f) eqn:E.
  - apply String.eqb_eq in E. subst f.
    unfold valuesAt at 1. now rewrite lookup_assign_same.
  - apply String.eqb_neq in E. unfold valuesAt.
    rewrite lookup_assign_other by congruence. now rewrite app_nil_r.
Qed.

Lemma lastGiven_cons (v : string) (given : list string) (o : option string) :
  lastGiven (v :: given) o = lastGiven given (Some v).
Proof.
  unfold lastGiven. simpl. destruct (rev given); reflexivity.
Qed.

(** On flags that all come with an accepted value, the second loop goes
    through: each qualifier gets the values of its flags in their order, and
    the output directory is the last one given. *)
Lemma parseOptions_collects (options : list (string * string)) :
  forall o qs,
    forallb acceptedOption options = true ->
    exists qs',
      parseOptions (optionArgs options) o qs
      = Parsed (lastGiven (givenOutdirs options) o, qs')
      /\ forall f, valuesAt f qs' = valuesAt f qs ++ givenFor f options.
Proof.
  induction options as [|[flag v] options IH]; intros o qs Hacc.
  - exists qs. split; [reflexivity|]. intros f. unfold givenFor. simpl.
    now rewrite app_nil_r.
  - simpl in Hacc. apply andb_true_iff in Hacc. destruct Hacc as [Hfv Hacc].
    unfold acceptedOption in Hfv. cbn [fst snd] in Hfv.
    apply andb_true_iff in Hfv. destruct Hfv as [Hv Hflag].
    apply negb_true_iff in Hv.
    change (optionArgs ((flag, v) :: options))
      with (flag :: v :: optionArgs options).
    rewrite parseOptions_step, Hv.
    unfold givenOutdirs, givenFor, fieldOf. cbn [filter fst snd].
    destruct (flagOf flag) as [|field| |] eqn:Ef; try discriminate.
    + destruct (IH (Some v) qs Hacc) as (qs' & Hrun & Hvals).
      exists qs'. split; [|exact Hvals].
      rewrite Hrun. cbn [map snd]. fold (givenOutdirs options).
      now rewrite lastGiven_cons.
    + destruct (IH o (addSearchOption field v qs) Hacc) as (qs' & Hrun & Hvals).
      exists qs'. split; [exact Hrun|]. intros f.
      rewrite Hvals, valuesAt_add, <- app_assoc. f_equal.
      destruct (field =? f); reflexivity.
    + rewrite Hflag.
      destruct (IH o (addSearchOption "in" v qs) Hacc) as (qs' & Hrun & Hvals).
      exists qs'. split; [exact Hrun|]. intros f.
      rewrite Hvals, valuesAt_add, <- app_assoc. f_equal.
      destruct ("in" =? f); reflexivity.
Qed.

Lemma collectArgs_quit_code (argv : list string) (p : list consoleLine) (c : Z) :
  collectArgs argv = Quit p c -> c = 1%Z /\ (p = helpText \/ quitShape p).
Proof.
  unfold collectArgs.
  destruct (existsb isHelpFlag (skipProgram argv)).
  { intros H; inversion H; subst. split; [reflexivity | now left]. }
  destruct (parseOptions (skipProgram argv) None []) as [[o qs]|p' c'] eqn:E.
  - destruct (length qs =? 0)%nat.
    { rewrite printHelp_some by discriminate. intros H; inversion H; subst.
      split; [reflexivity|]. right. left. eexists. split; [|reflexivity].
      discriminate. }
    destruct o as [d|]; [destruct (truthy (VStr d)); [discriminate|]|];
      rewrite printHelp_some by discriminate; intros H; inversion H; subst;
      (split; [reflexivity|]; right; left; eexists; split; [|reflexivity];
       discriminate).
  - intros H; inversion H; subst.
    destruct (parseOptions_quit _ _ _ _ _ E) as [Hc Hs]. split; [exact Hc | now right].
Qed.

End Collecting.

(** X12. When [collectArgs] returns, the output directory is not empty and
    does not start with two hyphens, there is at least one qualifier, the
    qualifiers are distinct names among the nine of the search syntax, every
    value is not empty and does not start with two hyphens, the values of
    [in] are among the four accepted ones, and a qualifier is an array only
    when it holds two values or more. *)
Theorem collectArgs_sound (argv : list string) (a : PoultryArgs) :
  collectArgs argv = Parsed a ->
  badValue (args_outdir a) = false
  /\ args_qualifiers a <> []
  /\ goodQualifiers (args_qualifiers a).
Proof.
  unfold collectArgs.
  destruct (existsb isHelpFlag (skipProgram argv)); [discriminate|].
  destruct (parseOptions (skipProgram argv) None []) as [[o qs]|p c] eqn:E;
    [|discriminate].
  destruct (parseOptions_good (skipProgram argv) None [] o qs goodQualifiers_nil
              ltac:(intros d0 H0; discriminate H0) E) as [Hq Ho].
  destruct (length qs =? 0)%nat eqn:El; [discriminate|].
  destruct o as [d|]; [|discriminate].
  destruct (truthy (VStr d)); [|discriminate].
  intros H; inversion H; subst; clear H. cbn [args_outdir args_qualifiers].
  split; [now apply Ho|]. split; [|exact Hq].
  intros ->. discriminate El.
Qed.

(** X13. Every way out of [collectArgs] is [process.exit(1)], the help
    included; what was printed is the help alone, an error followed by the
    help, or the error of [--in] alone. *)
Theorem collectArgs_quits (argv : list string) (p : list consoleLine) (c : Z) :
  collectArgs argv = Quit p c ->
  c = 1%Z
  /\ (p = helpText
      \/ (exists msg, msg <> "" /\ p = printError msg ++ helpText)
      \/ p = printError inMessage).
Proof.
  intros H. destruct (collectArgs_quit_code _ _ _ H) as [Hc [Hp|[Hp|Hp]]]; auto.
Qed.

(** X14. When [-h] or [--help] stands anywhere after the program name, also
    where a value is expected or after a flag that is not one, [collectArgs]
    prints the help without an error and exits with status 1. *)
Theorem collectArgs_help_wins (pre : list string) (prog : string)
  (rest : list string) :
  Forall (fun a => endsScan a = false) pre ->
  endsScan prog = true ->
  In "-h" rest \/ In "--help" rest ->
  collectArgs (pre ++ prog :: rest) = Quit helpText 1.
Proof.
  intros Hpre Hprog Hin. unfold collectArgs.
  rewrite skipProgram_found by assumption.
  assert (E : existsb isHelpFlag rest = true).
  { apply existsb_exists. destruct Hin as [H|H];
      [exists "-h" | exists "--help"]; split; auto. }
  rewrite E. reflexivity.
Qed.

(** X15. When no argument is empty or ends with [poultry], [bin.js] or
    [bin.ts], the first loop consumes the whole command line: whatever flags
    it holds, [collectArgs] asks for at least one search option and exits. *)
Theorem collectArgs_without_program_name (argv : list string) :
  Forall (fun a => endsScan a = false) argv ->
  collectArgs argv
  = Quit (printError "at least one search option is required" ++ helpText) 1.
Proof.
  intros H. unfold collectArgs. rewrite skipProgram_none by exact H. reflexivity.
Qed.

(** X16. On a command line that holds, after the program name, flags that all
    come with an accepted value, no help flag, a value for some qualifier and
    an output directory, [collectArgs] returns: the output directory is the
    last one given, and every qualifier holds the values given to its flags,
    in the order of the command line. *)
Theorem collectArgs_collects (pre : list string) (prog : string)
  (options : list (string * string)) (f0 : string) :
  Forall (fun a => endsScan a = false) pre ->
  endsScan prog = true ->
  forallb acceptedOption options = true ->
  existsb isHelpFlag (optionArgs options) = false ->
  givenFor f0 options <> [] ->
  givenOutdirs options <> [] ->
  exists d qs,
    collectArgs (pre ++ prog :: optionArgs options)
    = Parsed {| args_outdir := d; args_qualifiers := qs |}
    /\ lastGiven (givenOutdirs options) None = Some d
    /\ forall f, valuesAt f qs = givenFor f options.
Proof.
  intros Hpre Hprog Hacc Hhelp Hq Hd. unfold collectArgs.
  rewrite skipProgram_found by assumption. rewrite Hhelp.
  destruct (parseOptions_collects options None [] Hacc) as (qs & Hrun & Hvals).
  rewrite Hrun.
  destruct (parseOptions_good (optionArgs options) None []
              (lastGiven (givenOutdirs options) None) qs goodQualifiers_nil
              ltac:(intros d0 H0; discriminate H0) Hrun) as [_ Ho].
  assert (Hne : (length qs =? 0)%nat = false).
  { destruct qs; [|reflexivity]. specialize (Hvals f0). simpl in Hvals.
    symmetry in Hvals. contradiction. }
  rewrite Hne.
  destruct (lastGiven (givenOutdirs options) None) as [d|] eqn:El.
  - specialize (Ho d eq_refl). unfold badValue in Ho.
    apply orb_false_iff in Ho. destruct Ho as [Ho _].
    apply negb_false_iff in Ho. rewrite Ho.
    exists d, qs. repeat split. exact Hvals.
  - exfalso. unfold lastGiven in El.
    destruct (rev (givenOutdirs options)) eqn:Er; [|discriminate].
    apply (f_equal (@rev string)) in Er. rewrite rev_involutive in Er.
    simpl in Er. contradiction.
Qed.

(** * The script *)

Section ScriptRuns.

Context {rt : Runtime} {loc : Locale}.

(** With its arguments and its token, the script is one page sync and the
    report of its result. *)
Lemma main_unfold (proc : Process) (w : world) (args : PoultryArgs) (tok : string) :
  collectArgs (argv proc) = Parsed args ->
  GH_TOKEN proc = Some tok ->
  tok <> "" ->
  main proc w
  = match syncSearchPage (scriptOpts tok args) (withUrl (scriptUrl args) w) with
    | (Ret (Error (RateLimited reset)), w') =>
        ({| printed := printError (rateLimitMessage reset); ending := Exited 1 |}, w')
    | (Ret (Error Unauthorized), w') =>
        ({| printed := printError "GH_TOKEN is not valid"; ending := Exited 1 |}, w')
    | (Ret (Success pages), w') =>
        ({| printed :=
              [ConsoleLog [VStr "synced page"; VNum (total pages - remaining pages);
                           VStr "out of"; VNum (total pages); VStr "pages"]];
            ending := Finished |}, w')
    | (Exit code, w') => ({| printed := []; ending := Exited code |}, w')
    | (Throw e, w') => ({| printed := []; ending := Uncaught e |}, w')
    end.
Proof.
  intros Ha Ht Hne. unfold main. rewrite Ha, Ht. simpl.
  apply String.eqb_neq in Hne. rewrite Hne. reflexivity.
Qed.

Lemma main_world (proc : Process) (w : world) (args : PoultryArgs) (tok : string) :
  collectArgs (argv proc) = Parsed args ->
  GH_TOKEN proc = Some tok ->
  tok <> "" ->
  snd (main proc w)
  = snd (syncSearchPage (scriptOpts tok args) (withUrl (scriptUrl args) w)).
Proof.
  intros Ha Ht Hne. rewrite (main_unfold _ _ _ _ Ha Ht Hne).
  destruct (syncSearchPage (scriptOpts tok args) (withUrl (scriptUrl args) w))
    as [[[p|[|reset]]|c|e] w']; reflexivity.
Qed.

Lemma scriptUrl_params (args : PoultryArgs) :
  scriptUrl args
  = URL.mk "https://api.github.com/search/code"
      [("q", join " " (specTokens (args_qualifiers args)));
       ("per_page", "100"); ("page", "1")].
Proof.
  unfold scriptUrl, makeSearchURL. rewrite loop_tokens. reflexivity.
Qed.

End ScriptRuns.

(** X17. When [collectArgs] does not return, or [GH_TOKEN] is unset or
    empty, the script prints something and exits with status 1 without any
    request, [mkdir] or [writeFile]. *)
Theorem main_without_configuration {rt : Runtime} {loc : Locale}
  (proc : Process) (w : world) :
  (forall a, collectArgs (argv proc) <> Parsed a)
  \/ GH_TOKEN proc = None \/ GH_TOKEN proc = Some "" ->
  snd (main proc w) = w
  /\ ending (fst (main proc w)) = Exited 1
  /\ printed (fst (main proc w)) <> [].
Proof.
  intros H. unfold main.
  destruct (collectArgs (argv proc)) as [a|p c] eqn:E.
  - destruct H as [H|[H|H]]; [now destruct (H a) | |]; rewrite H;
      repeat split; discriminate.
  - destruct (collectArgs_quit_code _ _ _ E) as [-> Hp]. repeat split.
    cbn [fst printed].
    destruct Hp as [-> | [(msg & _ & ->) | ->]]; discriminate.
Qed.

(** X18. When the script runs to the end of its module, that is without
    [process.exit] and without an exception that nobody catches, it has
    printed one line, [synced page 1 out of N pages], where N is
    [ceil(total_count / 100)] for the search made from its arguments: the
    page it reports is always the first. *)
Theorem main_reports_first_page {rt : Runtime} {loc : Locale}
  (proc : Process) (w : world) :
  ending (fst (main proc w)) = Finished ->
  exists args tok r,
    collectArgs (argv proc) = Parsed args
    /\ GH_TOKEN proc = Some tok
    /\ json (fetchSearch (searchRequest (scriptOpts tok args) (scriptUrl args)))
       = Some (inl r)
    /\ printed (fst (main proc w))
       = [ConsoleLog [VStr "synced page"; VNum 1; VStr "out of";
                      VNum (Math_ceil_div (total_count r) 100); VStr "pages"]].
Proof.
  destruct (collectArgs (argv proc)) as [args|p c] eqn:Ea.
  2:{ unfold main. rewrite Ea. discriminate. }
  destruct (GH_TOKEN proc) as [tok|] eqn:Et.
  2:{ unfold main. rewrite Ea, Et. discriminate. }
  destruct (String.eqb_spec tok "") as [->|Hne].
  { unfold main. rewrite Ea, Et. discriminate. }
  rewrite (main_unfold _ _ _ _ Ea Et Hne).
  destruct (syncSearchPage (scriptOpts tok args) (withUrl (scriptUrl args) w))
    as [[[p|[|reset]]|c|e] w'] eqn:Hrun; try discriminate.
  intros _. destruct (syncSearchPage_success _ _ _ _ Hrun) as (r & Hj & Ht & Hr).
  exists args, tok, r. repeat split; [exact Hj|].
  cbn [fst printed]. rewrite Hr, <- Ht. cbn [scriptOpts page pageOr].
  replace (total p - (total p - 1))%Z with 1%Z by lia. reflexivity.
Qed.

(** X19. When the page sync of the script is rate-limited, the script prints
    [api rate limit exceeded, retry after ] followed by the local time of the
    reset, or by [undefined] when the reset is null, and exits with status 1:
    the text [1 minute] of the source is never printed. *)
Theorem main_rate_limited {rt : Runtime} {loc : Locale}
  (proc : Process) (w : world) (args : PoultryArgs) (tok : string)
  (reset : option Date) :
  collectArgs (argv proc) = Parsed args ->
  GH_TOKEN proc = Some tok ->
  tok <> "" ->
  fst (syncSearchPage (scriptOpts tok args) (withUrl (scriptUrl args) w))
  = Ret (Error (RateLimited reset)) ->
  fst (main proc w)
  = {| printed :=
         printError
           ("api rate limit exceeded, retry after "
            ++ match reset with
               | Some d => toLocaleTimeString d
               | None => "undefined"
               end)%string;
       ending := Exited 1 |}.
Proof.
  intros Ha Ht Hne Hrun. rewrite (main_unfold _ _ _ _ Ha Ht Hne).
  destruct (syncSearchPage (scriptOpts tok args) (withUrl (scriptUrl args) w))
    as [res w']. simpl in Hrun. subst res. reflexivity.
Qed.

(** X20. With its arguments and a token, the first call of the script is a
    GET, with the token as bearer, on the search URL whose [q] is the tokens
    of the collected qualifiers joined by spaces, whose [per_page] is 100 and
    whose [page] is 1; the URL object is the same at the end. *)
Theorem main_search_request {rt : Runtime} {loc : Locale}
  (proc : Process) (w : world) (args : PoultryArgs) (tok : string) :
  collectArgs (argv proc) = Parsed args ->
  GH_TOKEN proc = Some tok ->
  tok <> "" ->
  let url :=
    URL.mk "https://api.github.com/search/code"
      [("q", join " " (specTokens (args_qualifiers args)));
       ("per_page", "100"); ("page", "1")] in
  w_url (snd (main proc w)) = url
  /\ exists rest,
       w_trace (snd (main proc w))
       = w_trace w
         ++ EvFetch {| req_url := URL_toString url;
                       req_method := "GET";
                       req_authorization := ("Bearer " ++ tok)%string;
                       req_body := None |} :: rest.
Proof.
  intros Ha Ht Hne url. rewrite (main_world _ _ _ _ Ha Ht Hne).
  destruct (syncSearchPage_extends (scriptOpts tok args)
              (withUrl (scriptUrl args) w)) as [Hu [evs He]].
  change (afterPage (scriptOpts tok args) (withUrl (scriptUrl args) w))
    with (withUrl (scriptUrl args) w) in Hu, He.
  simpl in Hu, He. rewrite scriptUrl_params in *. fold url in Hu, He |- *.
  split; [exact Hu|]. exists evs. rewrite He, <- app_assoc. reflexivity.
Qed.

(** * The further properties on the test doubles *)

Lemma syncSearchPage_success_trace_witness :
  fst (retrieveObjectContents (rt := Doubles.rtOk) "t"
         [Doubles.item1; Doubles.item2]
         (addTrace Doubles.world0
            [EvFetch (searchRequest (rt := Doubles.rtOk) (Doubles.opts None)
                        (w_url Doubles.world0))]))
  = Ret (inl [VStr "X"; VNull])
  /\ w_trace (snd (syncSearchPage (rt := Doubles.rtOk) (Doubles.opts None)
                     Doubles.world0))
     = [EvFetch (searchRequest (rt := Doubles.rtOk) (Doubles.opts None)
                   (w_url Doubles.world0));
        EvFetch (contentRequest (rt := Doubles.rtOk) "t"
                   [Doubles.item1; Doubles.item2] Doubles.world0);
        EvMkdir "out";
        EvWriteFile "out/o_r_a_b_c.sql" (VStr "X")].
Proof.
  destruct (syncSearchPage_success_trace (rt := Doubles.rtOk) (Doubles.opts None)
              Doubles.world0
              (snd (syncSearchPage (rt := Doubles.rtOk) (Doubles.opts None)
                      Doubles.world0))
              {| remaining := 2; total := 3 |} eq_refl)
    as (r & cs & Hj & Hf & _ & Ht & _).
  injection Hj as <-.
  change (@Ret (list jsval + SyncSearchPageError) (inl [VStr "X"; VNull])
          = Ret (inl cs)) in Hf.
  injection Hf as <-.
  split; [reflexivity | exact Ht].
Defined.

Lemma syncSearchPage_calls_witness :
  exists evs,
    w_trace (snd (syncSearchPage (rt := Doubles.rtUnauthorized) (Doubles.opts None)
                    Doubles.world0))
    = EvFetch (searchRequest (rt := Doubles.rtUnauthorized) (Doubles.opts None)
                 (w_url Doubles.world0)) :: evs
    /\ existsb isFsEvent evs = false.
Proof.
  destruct (syncSearchPage_calls (rt := Doubles.rtUnauthorized) (Doubles.opts None)
              Doubles.world0) as (evs & Ht & _ & Hfs).
  exists evs. split; [exact Ht|]. apply Hfs. intros r w1 H. discriminate H.
Defined.

Lemma retrieveObjectContents_missing_repository_witness :
  retrieveObjectContents (rt := CliDoubles.rtMissingRepository) "t"
    [Doubles.item1; Doubles.item2] Doubles.world0
  = (Throw TypeError,
     addTrace (advance Doubles.world0 2)
       [EvFetch (contentRequest (rt := CliDoubles.rtMissingRepository) "t"
                   [Doubles.item1; Doubles.item2] Doubles.world0)]).
Proof.
  apply (retrieveObjectContents_missing_repository
           (rt := CliDoubles.rtMissingRepository) "t"
           [Doubles.item1; Doubles.item2] Doubles.world0
           (VObj [("data", VObj [("qu0", Doubles.blob (VStr "X")); ("qu1", VNull)])])
           (VObj [("qu0", Doubles.blob (VStr "X")); ("qu1", VNull)])
           1 "qu1");
    try reflexivity; try discriminate.
  left. reflexivity.
Defined.

Lemma syncSearchPage_keeps_query_witness :
  URL.get "q"
    (w_url (snd (syncSearchPage (rt := Doubles.rtOk) (Doubles.opts (Some 2%Z))
                   Doubles.world0)))
  = URL.get "q" (w_url Doubles.world0).
Proof.
  apply (proj1 (proj2 (syncSearchPage_keeps_query (rt := Doubles.rtOk)
                         (Doubles.opts (Some 2%Z)) Doubles.world0))).
  discriminate.
Defined.

Lemma filenameOf_flat_witness : ~ In "/"%char (chars (filenameOf Doubles.item1)).
Proof.
  apply filenameOf_flat; simpl; intros [H|[]]; discriminate H.
Defined.

Lemma filenameOf_collision_witness :
  filenameOf {| item_name := "c.sql"; path := "a_b_c.sql";
                repository := repository Doubles.item1 |}
  = filenameOf Doubles.item1.
Proof.
  apply (filenameOf_collision Doubles.item1). simpl. right. left. reflexivity.
Defined.

Lemma rate_limit_reset_seconds_witness :
  errorFromGitHubResponse
    (Doubles.resp (B := jsval) 403 (Doubles.limitedHeaders "1700000000") None)
    Doubles.world0
  = (Ret (Some (RateLimited (Some (ValidDate (1700000000 * 1000))))),
     Doubles.world0).
Proof.
  exact (rate_limit_reset_seconds
           (Doubles.resp (B := jsval) 403 (Doubles.limitedHeaders "1700000000") None)
           Doubles.world0 1700000000 eq_refl eq_refl eq_refl).
Defined.

Lemma syncSearchPage_no_results_witness :
  exists r,
    json (fetchSearch (Runtime := Doubles.rtNoMatch)
            (searchRequest (rt := Doubles.rtNoMatch) (Doubles.opts None)
               (w_url Doubles.world0)))
    = Some (inl r)
    /\ ((0 <= total_count r)%Z ->
        (0 <= 0)%Z
        /\ (0%Z = 0%Z <-> total_count r = 0%Z)
        /\ (@None Z = None ->
            ((-1 < 0)%Z <-> total_count r = 0%Z)
            /\ (total_count r = 0%Z -> (-1)%Z = (-1)%Z))).
Proof.
  exact (syncSearchPage_no_results (rt := Doubles.rtNoMatch) (Doubles.opts None)
           Doubles.world0
           (snd (syncSearchPage (rt := Doubles.rtNoMatch) (Doubles.opts None)
                   Doubles.world0))
           {| remaining := -1; total := 0 |} eq_refl).
Defined.

Lemma addSearchOption_values_witness :
  lookup "user" (addSearchOption "extension" "sql" [("user", QScalar "a")])
  = lookup "user" [("user", QScalar "a")].
Proof.
  apply (proj1 (proj2 (addSearchOption_values "extension" "sql"
                         [("user", QScalar "a")]))).
  discriminate.
Defined.

Lemma collectArgs_sound_witness :
  goodQualifiers (args_qualifiers CliDoubles.argsOk).
Proof.
  exact (proj2 (proj2 (collectArgs_sound CliDoubles.argvOk CliDoubles.argsOk
                         eq_refl))).
Defined.

Lemma collectArgs_quits_witness :
  1%Z = 1%Z
  /\ (printError "--ext missing value" ++ helpText = helpText
      \/ (exists msg,
             msg <> ""
             /\ printError "--ext missing value" ++ helpText
                = printError msg ++ helpText)
      \/ printError "--ext missing value" ++ helpText = printError inMessage).
Proof.
  exact (collectArgs_quits ["/usr/bin/node"; "/opt/poultry/lib/bin.js"; "--ext"]
           (printError "--ext missing value" ++ helpText) 1 eq_refl).
Defined.

Lemma collectArgs_help_wins_witness :
  collectArgs ["/usr/bin/node"; "/opt/poultry/lib/bin.js"; "--ext"; "--help"]
  = Quit helpText 1.
Proof.
  apply (collectArgs_help_wins ["/usr/bin/node"] "/opt/poultry/lib/bin.js"
           ["--ext"; "--help"]).
  - constructor; [reflexivity | constructor].
  - reflexivity.
  - right. simpl. auto.
Defined.

Lemma collectArgs_without_program_name_witness :
  collectArgs ["/usr/bin/node"; "/opt/run.js"; "--ext"; "sql"; "--out-dir"; "out"]
  = Quit (printError "at least one search option is required" ++ helpText) 1.
Proof.
  apply collectArgs_without_program_name.
  repeat (constructor; [reflexivity|]). constructor.
Defined.

Lemma collectArgs_collects_witness :
  exists d qs,
    collectArgs CliDoubles.argvOk
    = Parsed {| args_outdir := d; args_qualifiers := qs |}
    /\ lastGiven (givenOutdirs CliDoubles.options) None = Some d
    /\ forall f, valuesAt f qs = givenFor f CliDoubles.options.
Proof.
  apply (collectArgs_collects ["/usr/bin/node"] "/opt/poultry/lib/bin.js"
           CliDoubles.options "user").
  - constructor; [reflexivity | constructor].
  - reflexivity.
  - reflexivity.
  - reflexivity.
  - discriminate.
  - discriminate.
Defined.

Lemma main_without_configuration_witness :
  snd (main (rt := Doubles.rtOk) (loc := CliDoubles.locale) (CliDoubles.proc None)
         Doubles.world0)
  = Doubles.world0
  /\ ending (fst (main (rt := Doubles.rtOk) (loc := CliDoubles.locale)
                    (CliDoubles.proc None) Doubles.world0))
     = Exited 1
  /\ printed (fst (main (rt := Doubles.rtOk) (loc := CliDoubles.locale)
                     (CliDoubles.proc None) Doubles.world0))
     <> [].
Proof.
  apply main_without_configuration. right. left. reflexivity.
Defined.

Lemma main_reports_first_page_witness :
  exists args tok r,
    collectArgs (argv (CliDoubles.proc (Some "t"))) = Parsed args
    /\ GH_TOKEN (CliDoubles.proc (Some "t")) = Some tok
    /\ json (fetchSearch (Runtime := Doubles.rtOk)
               (searchRequest (rt := Doubles.rtOk) (scriptOpts tok args)
                  (scriptUrl args)))
       = Some (inl r)
    /\ printed (fst (main (rt := Doubles.rtOk) (loc := CliDoubles.locale)
                       (CliDoubles.proc (Some "t")) Doubles.world0))
       = [ConsoleLog [VStr "synced page"; VNum 1; VStr "out of";
                      VNum (Math_ceil_div (total_count r) 100); VStr "pages"]].
Proof.
  exact (main_reports_first_page (rt := Doubles.rtOk) (loc := CliDoubles.locale)
           (CliDoubles.proc (Some "t")) Doubles.world0 eq_refl).
Defined.

Lemma main_rate_limited_witness :
  fst (main (rt := CliDoubles.rtLimitedNoReset) (loc := CliDoubles.locale)
         (CliDoubles.proc (Some "t")) Doubles.world0)
  = {| printed := printError "api rate limit exceeded, retry after undefined";
       ending := Exited 1 |}.
Proof.
  apply (main_rate_limited (rt := CliDoubles.rtLimitedNoReset)
           (loc := CliDoubles.locale) (CliDoubles.proc (Some "t")) Doubles.world0
           CliDoubles.argsOk "t" None);
    try reflexivity.
  discriminate.
Defined.

Lemma main_search_request_witness :
  w_url (snd (main (rt := Doubles.rtOk) (loc := CliDoubles.locale)
                (CliDoubles.proc (Some "t")) Doubles.world0))
  = URL.mk "https://api.github.com/search/code"
      [("q", "extension:sql user:a user:b"); ("per_page", "100"); ("page", "1")].
Proof.
  refine (proj1 (main_search_request (rt := Doubles.rtOk) (loc := CliDoubles.locale)
                   (CliDoubles.proc (Some "t")) Doubles.world0 CliDoubles.argsOk "t"
                   eq_refl eq_refl _)).
  discriminate.
Defined.
